(** * gosparkpost: the [api] and [message_events] packages

    A shallow embedding of [src/api/api.go] (the [api] package, second
    revision, lines 109-341, and the [message_events] package, lines
    342-475) together with the properties of the event decoding
    pipeline.

    Conventions of the embedding.
    - A Go [string] or [[]byte] is a [string] (a sequence of bytes).  A
      slice whose nil-ness the code tests is an [option string].
    - A Go pointer that the code tests against nil or dereferences is an
      [option]; a dereference of nil is the outcome [Panic].
    - A Go [error] is its message; [(T, error)] results are pairs whose
      second component is [None] for a nil error.
    - Effects (HTTP round trips, body reads, writes to stderr) are
      recorded in a trace, in program order. *)

From Stdlib Require Import ZArith Ascii DecimalString.
From Stdlib Require DecimalZ.
From stdpp Require Import base option list gmap strings.

(** ** Bytes used by the string literals of the source *)

Definition dquote : ascii := "034"%char.
Definition newline : ascii := "010"%char.

(** ** Package [strings] and [fmt] of the Go library, as far as used *)

Module gostrings.

(** [strings.HasPrefix(s, prefix)]. *)
Fixpoint HasPrefix (s pre : string) : bool :=
  match pre, s with
  | EmptyString, _ => true
  | String c pre', String d s' => Ascii.eqb c d && HasPrefix s' pre'
  | String _ _, EmptyString => false
  end.

(** [strings.Join(elems, sep)]. *)
Fixpoint Join (elems : list string) (sep : string) : string :=
  match elems with
  | [] => EmptyString
  | [e] => e
  | e :: rest => e +:+ sep +:+ Join rest sep
  end.

Definition is_upper (c : ascii) : bool :=
  (65 <=? N_of_ascii c)%N && (N_of_ascii c <=? 90)%N.

Definition is_ascii (c : ascii) : bool := (N_of_ascii c <? 128)%N.

(** The lower-case form of an ASCII letter: [sr + 'a' - 'A']. *)
Definition lower (c : ascii) : ascii :=
  if is_upper c then ascii_of_N (N_of_ascii c + 32) else c.

(** The test EqualFold makes on two ASCII bytes: equal, or the smaller
    one is an upper-case letter whose lower-case form is the other. *)
Definition fold_eqb (sr tr : ascii) : bool :=
  Ascii.eqb sr tr ||
  (if (N_of_ascii sr <? N_of_ascii tr)%N
   then is_upper sr && Ascii.eqb tr (lower sr)
   else is_upper tr && Ascii.eqb sr (lower tr)).

(** [strings.EqualFold(s, t)] for a [t] made of ASCII bytes only, which
    is how the source calls it ([t] is [jctype]).  Bytes below 0x80 are
    compared by [fold_eqb].  A rune of [s] outside ASCII is equal under
    simple folding to an ASCII byte in two cases only: U+017F (bytes
    C5 BF), in the orbit of [s] and [S], and U+212A (bytes E2 84 AA),
    in the orbit of [k] and [K].  Every other rune of [s] outside
    ASCII, the replacement rune of an invalid sequence included,
    differs from each ASCII byte. *)
Fixpoint EqualFold (s t : string) : bool :=
  match s with
  | EmptyString => match t with EmptyString => true | String _ _ => false end
  | String sr s' =>
      match t with
      | EmptyString => false
      | String tr t' =>
          if is_ascii sr then fold_eqb sr tr && EqualFold s' t'
          else if Ascii.eqb sr "197" then
            match s' with
            | String c1 s2 =>
                Ascii.eqb c1 "191" && Ascii.eqb (lower tr) "s" && EqualFold s2 t'
            | EmptyString => false
            end
          else if Ascii.eqb sr "226" then
            match s' with
            | String c1 (String c2 s3) =>
                Ascii.eqb c1 "132" && Ascii.eqb c2 "170" &&
                Ascii.eqb (lower tr) "k" && EqualFold s3 t'
            | _ => false
            end
          else false
      end
  end%char.

(** [fmt]'s [%d] verb on an [int]. *)
Definition itoa (n : Z) : string := NilZero.string_of_int (Z.to_int n).

End gostrings.

(** ** Package [regexp]: the one pattern of the source

    [typeMatch] is [regexp.MustCompile] of the pattern
<<
    "type":\s*"(\w+)"
>>
    that is: the seven bytes ["type":], then [\s*], a double quote, the
    group [(\w+)] and a double quote.  The classes are RE2's: [\s] is
    [[\t\n\f\r ]] and [\w] is [[0-9A-Za-z_]].  All bytes the pattern
    can consume are ASCII, so matching bytes and matching runes agree. *)

Module regexp.

Definition is_space (c : ascii) : bool :=
  let n := N_of_ascii c in
  (n =? 9)%N || (n =? 10)%N || (n =? 12)%N || (n =? 13)%N || (n =? 32)%N.

Definition is_word (c : ascii) : bool :=
  let n := N_of_ascii c in
  ((48 <=? n)%N && (n <=? 57)%N) || ((65 <=? n)%N && (n <=? 90)%N) ||
  (n =? 95)%N || ((97 <=? n)%N && (n <=? 122)%N).

(** The literal head of the pattern: ["type":] with its quotes. *)
Definition type_key : string := String dquote ("type" +:+ String dquote ":").

(** [strip pre s]: the rest of [s] after the literal [pre], if [s]
    starts with it. *)
Fixpoint strip (pre s : string) : option string :=
  match pre with
  | EmptyString => Some s
  | String c pre' =>
      match s with
      | String d s' => if Ascii.eqb c d then strip pre' s' else None
      | EmptyString => None
      end
  end.

(** A greedy repetition of a class: the longest prefix of [s] in the
    class, and what follows it. *)
Fixpoint span (p : ascii -> bool) (s : string) : string * string :=
  match s with
  | String c s' =>
      if p c then let '(w, r) := span p s' in (String c w, r) else (EmptyString, s)
  | EmptyString => (EmptyString, EmptyString)
  end.

(** A match of the pattern anchored at the start of [s]: the matched
    text and group 1.  [\s*] and [\w+] are greedy; neither class
    contains the double quote that must follow, so giving back bytes
    can never turn a failure into a match and the greedy choice is the
    only one. *)
Definition match_here (s : string) : option (string * string) :=
  match strip type_key s with
  | None => None
  | Some s1 =>
      let '(ws, s2) := span is_space s1 in
      match s2 with
      | String q s3 =>
          if Ascii.eqb q dquote then
            let '(w, s4) := span is_word s3 in
            match w, s4 with
            | String _ _, String q' _ =>
                if Ascii.eqb q' dquote
                then Some (type_key +:+ ws +:+ String dquote (w +:+ String dquote EmptyString), w)
                else None
            | _, _ => None
            end
          else None
      | EmptyString => None
      end
  end.

(** The leftmost match in [s]. *)
Fixpoint find (s : string) : option (string * string) :=
  match match_here s with
  | Some r => Some r
  | None =>
      match s with
      | String _ s' => find s'
      | EmptyString => None
      end
  end.

(** [typeMatch.FindStringSubmatch(s)]: nil when there is no match,
    otherwise the matched text followed by group 1. *)
Definition FindStringSubmatch (s : string) : list string :=
  match find s with
  | Some (whole, g1) => [whole; g1]
  | None => []
  end.

End regexp.

(** ** Package [net/http] of the Go library, as far as used *)

Module http.

(** [http.Header]: a map from canonical header names to their values.
    The two names the source uses, [Content-Type] and [Authorization],
    are in canonical form already. *)
Abbreviation Header := (gmap string (list string)).

(** [Header.Get(key)]: the first value of [key], or the empty string. *)
Definition Header_Get (h : Header) (key : string) : string :=
  match h !! key with
  | Some (v :: _) => v
  | _ => EmptyString
  end.

(** [Header.Set(key, value)]. *)
Definition Header_Set (h : Header) (key value : string) : Header :=
  <[key := [value]]> h.

(** [http.Response].  [Body] stands for the reader of the response
    body: it holds what [ioutil.ReadAll(res.Body)] yields, the bytes
    read (a slice, nil or not) and the error. *)
Record Response := {
  Header_of : Header;
  StatusCode : Z;
  Body : option string * option string
}.

(** [http.Request], built by [http.NewRequest] from a method and a URL
    without a body. *)
Record Request := {
  Method : string;
  URL : string;
  ReqHeader : Header
}.

(** [*http.Client] is modelled by what its [Do] method answers. *)
Definition Client : Type := Request -> option Response * option string.

End http.

(** ** Outcomes and effects *)

(** What a run does to the outside, in program order. *)
Inductive effect :=
| HttpDo (req : http.Request)   (* [Client.Do(req)] *)
| BodyRead                      (* [ioutil.ReadAll(res.Body)] *)
| BodyClose                     (* the deferred [res.Body.Close()] *)
| Stderr (line : string).       (* [fmt.Fprintf(os.Stderr, ...)] *)

(** A Go call returns, or panics on a nil dereference or an index out of
    range. *)
Inductive go (A : Type) : Type :=
| Ret (a : A)
| Panic.
Arguments Ret {A} a.
Arguments Panic {A}.

(** A computation: the trace of its effects and how it ended. *)
Definition M (A : Type) : Type := list effect * go A.

Definition ret {A} (a : A) : M A := ([], Ret a).
Definition panic {A} : M A := ([], Panic).
Definition emit (e : effect) : M unit := ([e], Ret tt).

Definition bind {A B} (m : M A) (k : A -> M B) : M B :=
  match m with
  | (t, Ret a) => let '(t', r) := k a in (t ++ t', r)
  | (t, Panic) => (t, Panic)
  end.

(** [*p] for a pointer [p]. *)
Definition deref {A} (p : option A) : M A :=
  match p with
  | Some a => ret a
  | None => panic
  end.

Declare Scope go_scope.
Delimit Scope go_scope with go.
Notation "x <- m ;; k" := (bind m (fun x => k))
  (at level 100, m at next level, right associativity) : go_scope.
Notation "m ;;; k" := (bind m (fun _ => k))
  (at level 100, right associativity) : go_scope.

Arguments bind : simpl never.
Arguments ret : simpl never.
Arguments emit : simpl never.
Arguments panic : simpl never.

(** The trace and the result of a run. *)
Definition trace {A} (m : M A) : list effect := fst m.
Definition result {A} (m : M A) : go A := snd m.

(** ** Package [net/url] of the Go library

    [url.Parse], [URL.Query], [Values.Encode] and [URL.String] are code
    of the Go library; the embedding takes them as an interface.
    [url.Values] is a map from keys to value lists and [Values.Set]
    replaces the values of a key by one value. *)

Module url.

Abbreviation Values := (gmap string (list string)).

Definition Values_Set (v : Values) (key value : string) : Values :=
  <[key := [value]]> v.

Class pkg := {
  URL : Type;
  (** [url.Parse(rawurl)] *)
  Parse : string -> URL + string;
  (** [u.Query()] *)
  Query : URL -> Values;
  (** [v.Encode()] *)
  Encode : Values -> string;
  (** [u.RawQuery = s] *)
  set_RawQuery : URL -> string -> URL;
  (** [u.String()] *)
  URL_String : URL -> string
}.

End url.

(** ** Package [api] (second revision of [api.go]) *)

Module api.

(** [Config]: all information necessary to make an API request. *)
Record Config := {
  BaseUrl : string;
  ApiKey : string;
  ApiVersion : Z
}.

(** [Error] mirrors the error format returned by the APIs. *)
Record Error := {
  Message : string;
  Code : string;
  Description : string;
  Part : string;
  Line : Z
}.

(** [Response]: information about the last HTTP response.  [Body] is a
    byte slice that [ReadBody] tests against nil. *)
Record Response := {
  HTTP : option http.Response;
  Body : option string;
  Results : gmap string string;
  Errors : list Error
}.

(** [new(Response)]. *)
Definition new_Response : Response :=
  {| HTTP := None; Body := None; Results := ∅; Errors := [] |}.

(** [API]: the handle embedded in the API objects.  [Config], [Client]
    and [Response] are pointers. *)
Record API := {
  Path : string;
  Config_of : option Config;
  Client : option http.Client;
  Response_of : option Response
}.

Definition set_Body (r : Response) (b : option string) : Response :=
  {| HTTP := HTTP r; Body := b; Results := Results r; Errors := Errors r |}.

Definition set_Response (a : API) (r : option Response) : API :=
  {| Path := Path a; Config_of := Config_of a; Client := Client a;
     Response_of := r |}.

(** The test of line 256: the body kept on the handle, when
    [api.Response] and [api.Response.Body] are both non-nil. *)
Definition cached (a : API) : option string :=
  match Response_of a with
  | Some rs => Body rs
  | None => None
  end.

(** Lines 262-265: the handle after [bodyBytes] was stored, in a new
    [Response] when the handle had none. *)
Definition store_body (a : API) (bodyBytes : option string) : API :=
  let resp := match Response_of a with
              | None => new_Response
              | Some rs => rs
              end in
  set_Response a (Some (set_Body resp bodyBytes)).

Section WithLibrary.
Context {U : url.pkg}.

(** What the Go library and the certificate package give [Init]:
    the outcome of [certifi.CACerts()] and the client built on the
    transport that uses the pool. *)
Variable CACerts_err : option string.
Variable pooled_client : http.Client.

(** [api.Init(cfg, path)], lines 190-214.  The result is the handle
    after the call and the error. *)
Definition Init (a : API) (cfg : Config) (path : string) : API * option string :=
  let a1 := {| Path := path; Config_of := Some cfg; Client := Client a;
               Response_of := Response_of a |} in
  match Client a1 with
  | None =>
      match CACerts_err with
      | Some err => (a1, Some err)
      | None =>
          ({| Path := Path a1; Config_of := Config_of a1;
              Client := Some pooled_client;
              Response_of := Response_of a1 |}, None)
      end
  | Some _ => (a1, None)
  end.

Local Open Scope go_scope.

(** [api.HttpGet(url)], lines 232-239.  [http.NewRequest] fails when
    [url.Parse] rejects the URL (the method is the constant GET). *)
Definition HttpGet (a : API) (url : string)
  : M (option http.Response * option string) :=
  match url.Parse url with
  | inr err => ret (None, Some err)
  | inl _ =>
      cfg <- deref (Config_of a) ;;
      let req := {| http.Method := "GET"; http.URL := url;
                    http.ReqHeader :=
                      http.Header_Set ∅ "Authorization" (ApiKey cfg) |} in
      do_ <- deref (Client a) ;;
      emit (HttpDo req) ;;;
      ret (do_ req)
  end.

(** [api.ReadBody(res)], lines 254-267.  The result is the handle
    after the call, the bytes and the error. *)
Definition ReadBody (a : API) (res : option http.Response)
  : M (API * (option string * option string)) :=
  match cached a with
  | Some body => ret (a, (Some body, None))
  | None =>
      r <- deref res ;;
      emit BodyRead ;;;
      let '(bodyBytes, err) := http.Body r in
      let a2 := store_body a bodyBytes in
      emit BodyClose ;;;
      ret (a2, (bodyBytes, err))
  end.

(** [var jctype string]. *)
Definition jctype : string := "application/json".

(** [api.AssertJson(res)], lines 316-326. *)
Definition AssertJson (res : option http.Response) : M (option string) :=
  match res with
  | None => ret (Some "AssertJson got nil http.Response")
  | Some _ =>
      r <- deref res ;;
      let ctype := http.Header_Get (http.Header_of r) "Content-Type" in
      if negb (gostrings.EqualFold ctype jctype || gostrings.HasPrefix ctype jctype)
      then ret (Some ("Expected json, got [" +:+ ctype +:+ "] with code "
                      +:+ gostrings.itoa (http.StatusCode r)))
      else ret None
  end.

End WithLibrary.

End api.

(** ** Package [events] of the repository

    [message_events] imports [github.com/SparkPost/go-sparkpost/events];
    its source is not part of [src/].  The embedding takes what it uses
    as an interface. *)

Module events.

(** Modelled from the spec: the package [events], whose source is
    missing.  It is the Type Registry of the spec: a kind name maps to a
    factory of fresh, empty events of that kind, and an unknown kind
    maps to nothing. *)
Class pkg := {
  (** The interface type [events.Event]; a value stands for a non-nil
      event, that is a pointer to a record of one of the kinds. *)
  Event : Type;
  (** [events.ValidEventType(name)]. *)
  ValidEventType : string -> bool;
  (** [events.EventForName(name)]: a fresh empty event of the kind
      [name], or nil. *)
  EventForName : string -> option Event
}.

End events.

(** ** Package [encoding/json] of the Go library

    The two calls of [json.Unmarshal] in the source, one per target
    type.  Each yields the target after the call and the error. *)

Module json.

(** [json.RawMessage]: the bytes of one JSON value. *)
Abbreviation RawMessage := string (only parsing).

Class pkg {E : events.pkg} := {
  (** [json.Unmarshal(data, e)] for an [events.Event] [e]. *)
  Unmarshal_Event : string -> events.Event -> events.Event * option string;
  (** [json.Unmarshal(data, &resMap)] for an empty
      [map[string][]*json.RawMessage]. *)
  Unmarshal_resMap :
    string -> gmap string (list (option RawMessage)) * option string
}.

End json.

(** ** Package [message_events] *)

Module message_events.

(** [type MessageEvents struct{ api.API }]. *)
Abbreviation MessageEvents := api.API (only parsing).

Section WithLibrary.
Context {U : url.pkg} {E : events.pkg} {J : json.pkg}.
Variable CACerts_err : option string.
Variable pooled_client : http.Client.

Local Open Scope go_scope.

(** An empty handle, [&MessageEvents{}]. *)
Definition zero : MessageEvents :=
  {| api.Path := EmptyString; api.Config_of := None; api.Client := None;
     api.Response_of := None |}.

(** [New(cfg)], lines 362-370. *)
Definition New (cfg : api.Config) : option MessageEvents * option string :=
  let path := "/api/v" +:+ gostrings.itoa (api.ApiVersion cfg) +:+ "/message-events" in
  match api.Init CACerts_err pooled_client zero cfg path with
  | (_, Some err) => (None, Some err)
  | (m, None) => (Some m, None)
  end.

(** The loop of lines 380-384: the error for the first requested
    type that is not valid. *)
Fixpoint validate (types : list string) : option string :=
  match types with
  | [] => None
  | etype :: rest =>
      if negb (events.ValidEventType etype)
      then Some ("Invalid event type [" +:+ etype +:+ "]")
      else validate rest
  end.

(** Lines 374-397: the URL of the request, or the error. *)
Definition samples_url (m : MessageEvents) (types : option (list string))
  : M (string + string) :=
  match types with
  | None =>
      cfg <- deref (api.Config_of m) ;;
      ret (inl (api.BaseUrl cfg +:+ api.Path m +:+ "/events/samples"))
  | Some ts =>
      match validate ts with
      | Some err => ret (inr err)
      | None =>
          cfg <- deref (api.Config_of m) ;;
          match url.Parse (api.BaseUrl cfg +:+ api.Path m +:+ "/events/samples") with
          | inr err => ret (inr err)
          | inl u =>
              let q := url.Query u in
              let q := url.Values_Set q "events" (gostrings.Join ts ",") in
              let u := url.set_RawQuery u (url.Encode q) in
              ret (inl (url.URL_String u))
          end
      end
  end.

(** [typeMatch], line 441. *)
Definition typeMatch : string -> list string := regexp.FindStringSubmatch.

(** The message of line 452.  The format has no verb, so [fmt]
    appends the argument as an extra operand. *)
Definition no_type_error (j : string) : string :=
  "ParseEvents didn't find an event type in:" +:+ String newline
    ("%!(EXTRA string=" +:+ j +:+ ")").

(** The loop of lines 448-471 over the records still to be read,
    with the array [elist] and the index [i]. *)
Fixpoint ParseEvents_loop (jlist : list (option json.RawMessage))
    (elist : list (option events.Event)) (i : nat)
  : M (option (list (option events.Event)) * option string) :=
  match jlist with
  | [] => ret (Some (take i elist), None)
  | j :: rest =>
      raw <- deref j ;;
      let tstr := typeMatch raw in
      if (length tstr <? 2)%nat then ret (None, Some (no_type_error raw))
      else
        let kind := nth 1 tstr EmptyString in
        match events.EventForName kind with
        | None =>
            emit (Stderr ("unhandled event type [" +:+ kind +:+ "]"
                          +:+ String newline EmptyString)) ;;;
            ParseEvents_loop rest elist i
        | Some e =>
            let '(e, err) := json.Unmarshal_Event raw e in
            match err with
            | Some err =>
                ret (None, Some ("error parsing [" +:+ kind +:+ "]: " +:+ err))
            | None =>
                if (i <? length elist)%nat
                then ParseEvents_loop rest (<[i := Some e]> elist) (S i)
                else panic
            end
        end
  end.

(** [ParseEvents(jlist)], lines 443-475. *)
Definition ParseEvents (jlist : list (option json.RawMessage))
  : M (option (list (option events.Event)) * option string) :=
  let eventCount := length jlist in
  let elist := replicate eventCount None in
  ParseEvents_loop jlist elist 0.

(** The receiver of [Samples] is a copy of the caller's handle that
    shares the [Response] it points to: what the caller's handle is
    after the copy became [m1]. *)
Definition caller_view (m m1 : MessageEvents) : MessageEvents :=
  match api.Response_of m with
  | None => m
  | Some _ => m1
  end.

(** [Samples(types)], lines 373-439.  The result is the caller's
    handle after the call, the events and the error. *)
Definition Samples (m : MessageEvents) (types : option (list string))
  : M (MessageEvents * (option (list (option events.Event)) * option string)) :=
  u <- samples_url m types ;;
  match u with
  | inr err => ret (m, (None, Some err))
  | inl url =>
      got <- api.HttpGet m url ;;
      let '(res, err) := got in
      match err with
      | Some err => ret (m, (None, Some err))
      | None =>
          bad <- api.AssertJson res ;;
          match bad with
          | Some err => ret (m, (None, Some err))
          | None =>
              rd <- api.ReadBody m res ;;
              let '(m1, (bodyBytes, err)) := rd in
              let m' := caller_view m m1 in
              match err with
              | Some err => ret (m', (None, Some err))
              | None =>
                  let '(resMap, err) :=
                    json.Unmarshal_resMap (default EmptyString bodyBytes) in
                  match err with
                  | Some err => ret (m', (None, Some err))
                  | None =>
                      match resMap !! "results" with
                      | None => ret (m', (None, Some "no results!"))
                      | Some results =>
                          r <- ParseEvents results ;;
                          ret (m', r)
                      end
                  end
              end
          end
      end
  end.

End WithLibrary.

End message_events.

(** ** Vocabulary of the specification *)

(** Every byte of [s] is in the class [p]. *)
Fixpoint every (p : ascii -> bool) (s : string) : bool :=
  match s with
  | EmptyString => true
  | String c s' => p c && every p s'
  end.

(** The discriminator pattern occurs in [s] right after the prefix
    [pre], with the kind-tag [w] between the quotes: the literal
    ["type":], white space, a quote, the non-empty word [w], a quote. *)
Definition occurs (s pre w : string) : Prop :=
  exists ws post,
    s = pre +:+ regexp.type_key +:+ ws +:+ String dquote (w +:+ String dquote post) /\
    every regexp.is_space ws = true /\
    w <> EmptyString /\
    every regexp.is_word w = true.

(** The occurrence after [pre] is the first one of [s]. *)
Definition first_occurrence (s pre w : string) : Prop :=
  occurs s pre w /\
  forall pre' w', occurs s pre' w' -> String.length pre <= String.length pre'.

(** The bytes of [s] contain no match of the pattern. *)
Definition no_match (s : string) : Prop := forall pre w, ~ occurs s pre w.

(** The lower-case form of a string of ASCII bytes. *)
Fixpoint to_lower (s : string) : string :=
  match s with
  | EmptyString => EmptyString
  | String c s' => String (gostrings.lower c) (to_lower s')
  end.

(** What follows a greedy repetition of [p] is not in [p]. *)
Definition stops (p : ascii -> bool) (r : string) : Prop :=
  match r with
  | EmptyString => True
  | String c _ => p c = false
  end.

(** The text a match covers. *)
Definition matched_text (ws w : string) : string :=
  regexp.type_key +:+ ws +:+ String dquote (w +:+ String dquote EmptyString).

(** The discriminator extractor of the decoder: the kind-tag of a
    record, read as [ParseEvents] reads it from the answer of
    [typeMatch]. *)
Definition kind_tag (r : string) : option string :=
  match message_events.typeMatch r with
  | [_; k] => Some k
  | _ => None
  end.

Section Records.
Context {E : events.pkg} {J : json.pkg}.

(** The kind of the record is in the registry. *)
Definition registered (r : string) : bool :=
  match kind_tag r with
  | Some k => match events.EventForName k with Some _ => true | None => false end
  | None => false
  end.

(** The record has a kind, and the registry does not know it. *)
Definition unregistered (r : string) : bool :=
  match kind_tag r with
  | Some k => match events.EventForName k with Some _ => false | None => true end
  | None => false
  end.

(** [e] is the event the record [r] decodes to: the fresh event of its
    kind after [json.Unmarshal] filled it without an error. *)
Definition decoded (r : string) (e : events.Event) : Prop :=
  exists k e0,
    kind_tag r = Some k /\ events.EventForName k = Some e0 /\
    json.Unmarshal_Event r e0 = (e, None).

(** The registry knows the kind [k] of [r] and [json.Unmarshal] fails
    on [r] with the error [perr]. *)
Definition decode_fails (r k perr : string) : Prop :=
  exists e0 e,
    kind_tag r = Some k /\ events.EventForName k = Some e0 /\
    json.Unmarshal_Event r e0 = (e, Some perr).

(** The decoder gets past the record: it is skipped or decoded. *)
Definition passes (r : string) : Prop :=
  unregistered r = true \/ exists e, decoded r e.

(** The line written to stderr for a record of the unknown kind [k]. *)
Definition unhandled (k : string) : effect :=
  Stderr ("unhandled event type [" +:+ k +:+ "]" +:+ String newline EmptyString).

(** The lines written for the records of unknown kinds, in order. *)
Fixpoint unhandled_log (recs : list string) : list effect :=
  match recs with
  | [] => []
  | r :: rest =>
      match kind_tag r with
      | Some k =>
          match events.EventForName k with
          | None => unhandled k :: unhandled_log rest
          | Some _ => unhandled_log rest
          end
      | None => unhandled_log rest
      end
  end.

(** What the loop body does with one record. *)
Inductive verdict :=
| Skipped (k : string)
| Decoded (e : events.Event)
| Faulty (msg : string).

Definition classify (r : string) : verdict :=
  match kind_tag r with
  | None => Faulty (message_events.no_type_error r)
  | Some k =>
      match events.EventForName k with
      | None => Skipped k
      | Some e0 =>
          match json.Unmarshal_Event r e0 with
          | (e, None) => Decoded e
          | (_, Some err) => Faulty ("error parsing [" +:+ k +:+ "]: " +:+ err)
          end
      end
  end.

(** Every requested type is valid. *)
Definition all_valid (types : list string) : Prop :=
  Forall (fun t => events.ValidEventType t = true) types.

End Records.

(** The request [HttpGet] builds for a URL. *)
Definition get_request (cfg : api.Config) (url : string) : http.Request :=
  {| http.Method := "GET"; http.URL := url;
     http.ReqHeader := http.Header_Set ∅ "Authorization" (api.ApiKey cfg) |}.

(** The 256 bytes. *)
Definition all_ascii : list ascii := ascii_of_nat <$> seq 0 256.

(** ** A small instance of the interfaces, to run the model *)

Module sample.

(** [quoted s] is [s] between double quotes. *)
Definition quoted (s : string) : string :=
  String dquote (s +:+ String dquote EmptyString).

(** A JSON object with the one field [type]. *)
Definition record_of (kind : string) : string :=
  "{" +:+ quoted "type" +:+ ": " +:+ quoted kind +:+ "}".

(** A record whose nested value holds a [type] field before its own. *)
Definition nested_record : string :=
  "{" +:+ quoted "rcpt_meta" +:+ ":{" +:+ quoted "type" +:+ ":"
    +:+ quoted "bounce" +:+ "}," +:+ quoted "type" +:+ ":"
    +:+ quoted "delivery" +:+ "}".

(** Two kinds of events, each holding the bytes it was decoded from. *)
Inductive Event :=
| Delivery (raw : string)
| Bounce (raw : string).

Definition fill (raw : string) (e : Event) : Event :=
  match e with
  | Delivery _ => Delivery raw
  | Bounce _ => Bounce raw
  end.

Definition ev : events.pkg := {|
  events.Event := Event;
  events.ValidEventType := fun name =>
    String.eqb name "delivery" || String.eqb name "bounce";
  events.EventForName := fun name =>
    if String.eqb name "delivery" then Some (Delivery EmptyString)
    else if String.eqb name "bounce" then Some (Bounce EmptyString)
    else None
|}.

(** The body of a response with three records, the second one of a
    kind outside the registry. *)
Definition body_three : string :=
  "{" +:+ quoted "results" +:+ ":[" +:+ record_of "delivery" +:+ ","
    +:+ record_of "click" +:+ "," +:+ record_of "bounce" +:+ "]}".

Fixpoint ends_with_brace (s : string) : bool :=
  match s with
  | EmptyString => false
  | String c EmptyString => Ascii.eqb c "}"
  | String _ s' => ends_with_brace s'
  end.

(** A decoder that accepts the records that end with a closing brace,
    and knows the bodies [body_three] and [{}]. *)
Definition js : @json.pkg ev := {|
  json.Unmarshal_Event := fun raw (e : @events.Event ev) =>
    if ends_with_brace raw then (fill raw e, None)
    else (e, Some "unexpected end of JSON input");
  json.Unmarshal_resMap := fun body =>
    if String.eqb body body_three
    then ({[ "results" := [Some (record_of "delivery"); Some (record_of "click");
                           Some (record_of "bounce")] ]}, None)
    else if String.eqb body "{}" then (∅, None)
    else (∅, Some "unexpected end of JSON input")
|}.

(** The comma of a query value, escaped. *)
Fixpoint escape (s : string) : string :=
  match s with
  | EmptyString => EmptyString
  | String c s' =>
      if Ascii.eqb c "," then "%2C" +:+ escape s' else String c (escape s')
  end.

(** URLs as a location and a raw query. *)
Definition ur : url.pkg := {|
  url.URL := string * string;
  url.Parse := fun raw =>
    if String.eqb raw EmptyString then inr "empty url" else inl (raw, EmptyString);
  url.Query := fun _ => ∅;
  url.Encode := fun v =>
    match v !! "events" with
    | Some [x] => "events=" +:+ escape x
    | _ => EmptyString
    end;
  url.set_RawQuery := fun u rq => (fst u, rq);
  url.URL_String := fun u =>
    if String.eqb (snd u) EmptyString then fst u else fst u +:+ "?" +:+ snd u
|}.

(** A server that answers every request alike. *)
Definition answer (ctype : string) (code : Z) (body : string) : http.Response :=
  {| http.Header_of := {[ "Content-Type" := [ctype] ]};
     http.StatusCode := code;
     http.Body := (Some body, None) |}.

Definition server (res : http.Response) : http.Client :=
  fun _ => (Some res, None).

Definition cfg : api.Config :=
  {| api.BaseUrl := "https://api.example.com"; api.ApiKey := "key";
     api.ApiVersion := 1 |}.

(** The handle [New(cfg)] builds over the server. *)
Definition handle (res : http.Response) : api.API :=
  {| api.Path := "/api/v1/message-events"; api.Config_of := Some cfg;
     api.Client := Some (server res); api.Response_of := None |}.

(** A handle that keeps the body of an earlier response. *)
Definition used_handle (res : http.Response) (kept : string) : api.API :=
  api.store_body (handle res) (Some kept).

End sample.

(** ** The rest of the package [api] *)

(** *** Package [strconv] of the Go library

    [strconv.Atoi] accepts an optional sign followed by one or more
    decimal digits whose value fits an [int].  The width of [int] and
    the message of the error for a rejected string are taken as an
    interface. *)

Module strconv.

Class pkg := {
  (** The number of bits of an [int], 32 or 64. *)
  IntSize : Z;
  (** The message of the [*NumError] that [Atoi] returns for a string
      it rejects. *)
  Atoi_error : string -> string
}.

Section WithLibrary.
Context {S : pkg}.

(** [v] is a value of the type [int]. *)
Definition fits_int (v : Z) : bool :=
  (- 2 ^ (IntSize - 1) <=? v)%Z && (v <? 2 ^ (IntSize - 1))%Z.

(** [strconv.Atoi(s)]: the value, or the message of the error. *)
Definition Atoi (s : string) : Z + string :=
  let '(neg, ds) :=
    match s with
    | String c r =>
        if Ascii.eqb c "-" then (true, r)
        else if Ascii.eqb c "+" then (false, r)
        else (false, s)
    | EmptyString => (false, s)
    end%char in
  match ds with
  | EmptyString => inr (Atoi_error s)
  | String _ _ =>
      match NilEmpty.uint_of_string ds with
      | None => inr (Atoi_error s)
      | Some d =>
          let v := if neg then (- Z.of_uint d)%Z else Z.of_uint d in
          if fits_int v then inl v else inr (Atoi_error s)
      end
  end.

End WithLibrary.

End strconv.

(** [json.Unmarshal(body, api.Response)]: the [Response] after the call,
    which decodes in place, and the error. *)
Class response_json := {
  Unmarshal_Response : string -> api.Response -> api.Response * option string
}.

Definition set_HTTP (r : api.Response) (res : option http.Response)
  : api.Response :=
  {| api.HTTP := res; api.Body := api.Body r; api.Results := api.Results r;
     api.Errors := api.Errors r |}.

Section RestOfApi.
Context {U : url.pkg} {S : strconv.pkg} {R : response_json}.

Local Open Scope go_scope.

(** [NewConfig(m)], lines 134-160. *)
Definition NewConfig (m : gmap string string) : option api.Config * option string :=
  match m !! "baseurl" with
  | None => (None, Some "BaseUrl is required for api config")
  | Some baseurl =>
      match m !! "apikey" with
      | None => (None, Some "ApiKey is required for api config")
      | Some apikey =>
          match m !! "apiver" with
          | None => (None, Some "ApiVer is required for api config")
          | Some apiver =>
              match strconv.Atoi apiver with
              | inr err => (None, Some err)
              | inl v =>
                  (Some {| api.BaseUrl := baseurl; api.ApiKey := apikey;
                           api.ApiVersion := v |}, None)
              end
          end
      end
  end.

(** [api.HttpDelete(url)], lines 244-251. *)
Definition HttpDelete (a : api.API) (url : string)
  : M (option http.Response * option string) :=
  match url.Parse url with
  | inr err => ret (None, Some err)
  | inl _ =>
      cfg <- deref (api.Config_of a) ;;
      let req := {| http.Method := "DELETE"; http.URL := url;
                    http.ReqHeader :=
                      http.Header_Set ∅ "Authorization" (api.ApiKey cfg) |} in
      do_ <- deref (api.Client a) ;;
      emit (HttpDo req) ;;;
      ret (do_ req)
  end.

(** The message of line 282. *)
Definition parse_error (err : string) (body : option string) : string :=
  "Failed to parse API response: [" +:+ err +:+ "]" +:+ String newline
    (default EmptyString body).

(** [api.ParseResponse(res)], lines 271-287.  The result is the handle
    after the call and the error. *)
Definition ParseResponse (a : api.API) (res : option http.Response)
  : M (api.API * option string) :=
  rd <- api.ReadBody a res ;;
  let '(a1, (body, err)) := rd in
  match err with
  | Some err => ret (a1, Some err)
  | None =>
      let a2 := match api.Response_of a1 with
                | None => api.set_Response a1 (Some api.new_Response)
                | Some _ => a1
                end in
      target <- deref (api.Response_of a2) ;;
      let '(decoded_into, err) :=
        Unmarshal_Response (default EmptyString body) target in
      match err with
      | Some err =>
          ret (api.set_Response a2 (Some decoded_into), Some (parse_error err body))
      | None =>
          ret (api.set_Response a2 (Some (set_HTTP decoded_into res)), None)
      end
  end.

End RestOfApi.

(** *** The first revision of [api.go], lines 1-109 *)

Module api_rev1.

Local Open Scope go_scope.

(** [AssertJson(res)], lines 100-109. *)
Definition AssertJson (res : option http.Response) : M (option string) :=
  match res with
  | None => ret (Some "AssertJson got nil http.Response")
  | Some _ =>
      r <- deref res ;;
      let contentType := http.Header_Get (http.Header_of r) "Content-Type" in
      if negb (gostrings.EqualFold contentType "application/json")
      then ret (Some ("Expected json, got [" +:+ contentType +:+ "] with code "
                      +:+ gostrings.itoa (http.StatusCode r)))
      else ret None
  end.

End api_rev1.

(** ** A reference for the decoder *)

Section Reference.
Context {E : events.pkg} {J : json.pkg}.

Local Open Scope go_scope.

(** What a result becomes when the events [pre] come before it. *)
Definition after_events (pre : list (option events.Event))
    (x : option (list (option events.Event)) * option string)
  : option (list (option events.Event)) * option string :=
  match x with
  | (Some out, err) => (Some (pre ++ out), err)
  | (None, err) => (None, err)
  end.

(** The decoder as a recursion that builds the list of events from its
    head, record by record. *)
Fixpoint decode_records (jlist : list (option string))
  : M (option (list (option events.Event)) * option string) :=
  match jlist with
  | [] => ret (Some [], None)
  | None :: _ => panic
  | Some r :: rest =>
      match classify r with
      | Faulty msg => ret (None, Some msg)
      | Skipped k => emit (unhandled k) ;;; decode_records rest
      | Decoded e =>
          x <- decode_records rest ;;
          ret (after_events [Some e] x)
      end
  end.

(** An effect is a line written to stderr. *)
Definition is_stderr (e : effect) : Prop :=
  match e with
  | Stderr _ => True
  | _ => False
  end.

End Reference.

(** ** A small instance of the other interfaces *)

Module sample_api.

(** An [int] of 64 bits, and the message for a string that is not a
    number. *)
Definition sc : strconv.pkg := {|
  strconv.IntSize := 64;
  strconv.Atoi_error := fun s =>
    "strconv.Atoi: parsing " +:+ sample.quoted s +:+ ": invalid syntax"
|}.

(** A decoder of the API response that takes an object with no field
    and rejects everything else. *)
Definition rj : response_json := {|
  Unmarshal_Response := fun body target =>
    if String.eqb body "{}" then (target, None)
    else (target, Some "unexpected end of JSON input")
|}.

(** A response whose body breaks off after its first bytes. *)
Definition broken : http.Response :=
  {| http.Header_of := {[ "Content-Type" := ["application/json"] ]};
     http.StatusCode := 200;
     http.Body := (Some "{", Some "unexpected EOF") |}.

(** The settings of [sample.cfg] as a map. *)
Definition settings : gmap string string :=
  {[ "baseurl" := "https://api.example.com"; "apikey" := "key";
     "apiver" := "1"; "comment" := "not read" ]}.

(** A handle whose transport fails. *)
Definition offline : api.API :=
  {| api.Path := "/api/v1/message-events"; api.Config_of := Some sample.cfg;
     api.Client := Some (fun _ => (None, Some "connection refused"));
     api.Response_of := None |}.

(** The URL of the samples for [sample.cfg]. *)
Definition samples_at : string :=
  "https://api.example.com/api/v1/message-events/events/samples".

End sample_api.

(** * Properties *)

(** ** Strings *)

Lemma append_cons (c : ascii) (s t : string) :
  String c s +:+ t = String c (s +:+ t).
Proof. reflexivity. Qed.

Lemma append_nil_l (t : string) : EmptyString +:+ t = t.
Proof. reflexivity. Qed.

(** ** The pattern matcher *)

Lemma strip_Some (pre s r : string) :
  regexp.strip pre s = Some r <-> s = pre +:+ r.
Proof.
  revert s. induction pre as [|c pre IH]; intros s; simpl.
  - rewrite append_nil_l. split; [by intros [= ->] | by intros ->].
  - rewrite append_cons. destruct s as [|d s]; [split; intros; discriminate |].
    destruct (Ascii.eqb_spec c d) as [->|Hne].
    + rewrite IH. split; [by intros -> | by intros [= ->]].
    + split; [discriminate | intros [= ? ?]; congruence].
Qed.

Lemma span_spec (p : ascii -> bool) (s w r : string) :
  regexp.span p s = (w, r) <-> s = w +:+ r /\ every p w = true /\ stops p r.
Proof.
  revert w r. induction s as [|c s IH]; intros w r; simpl.
  - split.
    + by intros [= <- <-].
    + intros (Heq & _ & _). destruct w; [|discriminate].
      rewrite append_nil_l in Heq. by subst.
  - destruct (p c) eqn:Hc.
    + destruct (regexp.span p s) as [w0 r0] eqn:Hs.
      split.
      * intros [= <- <-]. destruct (proj1 (IH w0 r0) eq_refl) as (-> & Hw & Hr).
        rewrite append_cons. simpl. by rewrite Hc, Hw.
      * intros (Heq & Hw & Hr). destruct w as [|d w].
        -- rewrite append_nil_l in Heq. subst r. simpl in Hr. congruence.
        -- rewrite append_cons in Heq. injection Heq as <- ->.
           simpl in Hw. apply andb_true_iff in Hw as [_ Hw].
           assert ((w0, r0) = (w, r)) as Hs' by (apply IH; auto).
           congruence.
    + split.
      * intros [= <- <-]. by rewrite append_nil_l.
      * intros (Heq & Hw & Hr). destruct w as [|d w].
        -- rewrite append_nil_l in Heq. by subst.
        -- rewrite append_cons in Heq. injection Heq as <- ->.
           simpl in Hw. rewrite Hc in Hw. discriminate.
Qed.

(** An anchored match is an occurrence after the empty prefix. *)
Lemma match_here_Some (s whole w : string) :
  regexp.match_here s = Some (whole, w) <->
  exists ws post,
    s = regexp.type_key +:+ ws +:+ String dquote (w +:+ String dquote post) /\
    every regexp.is_space ws = true /\ w <> EmptyString /\
    every regexp.is_word w = true /\ whole = matched_text ws w.
Proof.
  unfold regexp.match_here. split.
  - destruct (regexp.strip regexp.type_key s) as [s1|] eqn:Hk; [|discriminate].
    apply strip_Some in Hk as ->.
    destruct (regexp.span regexp.is_space s1) as [ws s2] eqn:Hsp.
    apply span_spec in Hsp as (-> & Hws & _).
    destruct s2 as [|q0 s3]; [discriminate |].
    destruct (Ascii.eqb_spec q0 dquote) as [->|]; [|discriminate].
    destruct (regexp.span regexp.is_word s3) as [w0 s4] eqn:Hw.
    apply span_spec in Hw as (-> & Hw0 & _).
    destruct w0 as [|c w0]; [discriminate |].
    destruct s4 as [|q1 post]; [discriminate |].
    destruct (Ascii.eqb_spec q1 dquote) as [->|]; [|discriminate].
    intros [= <- <-]. exists ws, post. by repeat split.
  - intros (ws & post & -> & Hws & Hne & Hw & ->).
    assert (regexp.strip regexp.type_key
              (regexp.type_key +:+ ws +:+ String dquote (w +:+ String dquote post))
            = Some (ws +:+ String dquote (w +:+ String dquote post))) as ->
      by by apply strip_Some.
    assert (regexp.span regexp.is_space
              (ws +:+ String dquote (w +:+ String dquote post))
            = (ws, String dquote (w +:+ String dquote post))) as ->
      by (apply span_spec; repeat split; auto).
    rewrite Ascii.eqb_refl.
    assert (regexp.span regexp.is_word (w +:+ String dquote post)
            = (w, String dquote post)) as ->
      by (apply span_spec; repeat split; auto).
    destruct w; [done |]. by rewrite Ascii.eqb_refl.
Qed.

Lemma occurs_split (s pre w : string) :
  occurs s pre w <->
  exists rest whole, s = pre +:+ rest /\ regexp.match_here rest = Some (whole, w).
Proof.
  split.
  - intros (ws & post & -> & Hws & Hne & Hw).
    eexists _, (matched_text ws w). split; [reflexivity |].
    apply match_here_Some. by exists ws, post.
  - intros (rest & whole & -> & Hm).
    apply match_here_Some in Hm as (ws & post & -> & Hws & Hne & Hw & _).
    by exists ws, post.
Qed.

(** [find] returns the match anchored at the first position that has
    one. *)
Lemma find_Some (s whole w : string) :
  regexp.find s = Some (whole, w) <->
  exists pre rest,
    s = pre +:+ rest /\ regexp.match_here rest = Some (whole, w) /\
    forall pre' rest',
      s = pre' +:+ rest' -> String.length pre' < String.length pre ->
      regexp.match_here rest' = None.
Proof.
  induction s as [|c s IH].
  - split; [discriminate |].
    intros (pre & rest & Heq & Hr & _).
    destruct pre; [|discriminate]. rewrite append_nil_l in Heq. subst rest.
    discriminate.
  - simpl. destruct (regexp.match_here (String c s)) as [r|] eqn:Hm.
    + split.
      * intros [= ->]. exists EmptyString, (String c s).
        repeat split; auto; intros; simpl in *; lia.
      * intros (pre & rest & Heq & Hr & Hfirst).
        destruct pre as [|d pre].
        -- rewrite append_nil_l in Heq. subst rest. congruence.
        -- specialize (Hfirst EmptyString (String c s) eq_refl).
           simpl in Hfirst. rewrite Hfirst in Hm by lia. discriminate.
    + rewrite IH. split.
      * intros (pre & rest & -> & Hr & Hfirst).
        exists (String c pre), rest. repeat split; auto.
        intros pre' rest' Heq Hlen.
        destruct pre' as [|d pre'].
        -- rewrite append_nil_l in Heq. by subst rest'.
        -- rewrite !append_cons in Heq. injection Heq as -> Heq.
           apply (Hfirst pre' rest' Heq). simpl in Hlen. lia.
      * intros (pre & rest & Heq & Hr & Hfirst).
        destruct pre as [|d pre].
        -- rewrite append_nil_l in Heq. subst rest. congruence.
        -- rewrite append_cons in Heq. injection Heq as -> ->.
           exists pre, rest. repeat split; auto.
           intros pre' rest' Heq Hlen.
           apply (Hfirst (String d pre') rest').
           ++ by rewrite append_cons, Heq.
           ++ simpl. lia.
Qed.

Lemma find_None (s : string) :
  regexp.find s = None <->
  forall pre rest, s = pre +:+ rest -> regexp.match_here rest = None.
Proof.
  induction s as [|c s IH]; simpl.
  - split; [|done]. intros _ pre rest Heq.
    destruct pre; [|discriminate]. rewrite append_nil_l in Heq. by subst.
  - destruct (regexp.match_here (String c s)) eqn:Hm.
    + split; [discriminate |]. intros Hall.
      rewrite (Hall EmptyString (String c s) eq_refl) in Hm. discriminate.
    + rewrite IH. split.
      * intros Hall pre rest Heq. destruct pre as [|d pre].
        -- rewrite append_nil_l in Heq. by subst.
        -- rewrite append_cons in Heq. injection Heq as -> ->. by apply (Hall pre).
      * intros Hall pre rest ->. apply (Hall (String c pre)). by rewrite append_cons.
Qed.

(** [FindStringSubmatch] answers nil or two strings. *)
Lemma FindStringSubmatch_cases (s : string) :
  (regexp.FindStringSubmatch s = [] /\ regexp.find s = None) \/
  (exists whole w, regexp.FindStringSubmatch s = [whole; w] /\
                   regexp.find s = Some (whole, w)).
Proof.
  unfold regexp.FindStringSubmatch.
  destruct (regexp.find s) as [[whole w]|]; [right; eauto | left; auto].
Qed.

Lemma FindStringSubmatch_nil (s : string) :
  regexp.FindStringSubmatch s = [] <-> no_match s.
Proof.
  unfold no_match. split.
  - intros Hnil pre w Hocc.
    destruct (FindStringSubmatch_cases s) as [[_ Hf]|(? & ? & Hs & _)];
      [|congruence].
    apply occurs_split in Hocc as (rest & whole & Heq & Hm).
    rewrite (proj1 (find_None s) Hf pre rest Heq) in Hm. discriminate.
  - intros Hno.
    destruct (FindStringSubmatch_cases s) as [[Hs _]|(whole & w & _ & Hf)];
      [done |].
    apply find_Some in Hf as (pre & rest & Heq & Hm & _).
    exfalso. apply (Hno pre w). apply occurs_split. eauto.
Qed.

Lemma FindStringSubmatch_first (s w : string) :
  (exists whole, regexp.FindStringSubmatch s = [whole; w]) <->
  exists pre, first_occurrence s pre w.
Proof.
  split.
  - intros (whole & Hs).
    destruct (FindStringSubmatch_cases s) as [[Hnil _]|(whole' & w' & Hs' & Hf)];
      [congruence |].
    rewrite Hs in Hs'. injection Hs' as <- <-.
    apply find_Some in Hf as (pre & rest & Heq & Hm & Hfirst).
    exists pre. split; [apply occurs_split; eauto |].
    intros pre' w' Hocc.
    apply occurs_split in Hocc as (rest' & whole' & Heq' & Hm').
    destruct (decide (String.length pre' < String.length pre)) as [Hlt|]; [|lia].
    rewrite (Hfirst pre' rest' Heq' Hlt) in Hm'. discriminate.
  - intros (pre & Hocc & Hfirst).
    apply occurs_split in Hocc as (rest & whole & Heq & Hm).
    exists whole.
    assert (regexp.find s = Some (whole, w)) as Hf.
    { apply find_Some. exists pre, rest. repeat split; auto.
      intros pre' rest' Heq' Hlt.
      destruct (regexp.match_here rest') as [[whole' w']|] eqn:Hm'; [|done].
      assert (occurs s pre' w') as Hocc' by (apply occurs_split; eauto).
      apply Hfirst in Hocc'. lia. }
    unfold regexp.FindStringSubmatch. by rewrite Hf.
Qed.

(** ** The discriminator extractor *)

Lemma kind_tag_cases (r : string) :
  (kind_tag r = None /\ message_events.typeMatch r = []) \/
  (exists whole k, kind_tag r = Some k /\ message_events.typeMatch r = [whole; k]).
Proof.
  unfold kind_tag, message_events.typeMatch.
  destruct (FindStringSubmatch_cases r) as [[-> _]|(whole & k & -> & _)];
    [by left | right; eauto].
Qed.

Lemma kind_tag_None (r : string) : kind_tag r = None <-> no_match r.
Proof.
  rewrite <- FindStringSubmatch_nil.
  destruct (kind_tag_cases r) as [[Hk Hm]|(whole & k & Hk & Hm)];
    unfold message_events.typeMatch in Hm; rewrite Hk, Hm; split; done.
Qed.

Lemma kind_tag_Some (r k : string) :
  kind_tag r = Some k <-> exists pre, first_occurrence r pre k.
Proof.
  rewrite <- FindStringSubmatch_first.
  destruct (kind_tag_cases r) as [[Hk Hm]|(whole & k' & Hk & Hm)];
    unfold message_events.typeMatch in Hm; rewrite Hk, Hm.
  - split; [done | by intros [? ?]].
  - split; [intros [= ->]; eauto | by intros [? [= _ ->]]].
Qed.

(** ** Computations *)

Lemma bind_ret {A B} (a : A) (k : A -> M B) : bind (ret a) k = k a.
Proof. unfold bind, ret. by destruct (k a). Qed.

Lemma bind_emit {B} (e : effect) (k : unit -> M B) :
  bind (emit e) k = (e :: trace (k tt), result (k tt)).
Proof. unfold bind, emit, trace, result. by destruct (k tt). Qed.

Lemma bind_panic {A B} (k : A -> M B) : bind panic k = panic.
Proof. reflexivity. Qed.

Lemma bind_run {A B} (t : list effect) (a : A) (k : A -> M B) :
  bind (t, Ret a) k = (t ++ trace (k a), result (k a)).
Proof. unfold bind, trace, result. by destruct (k a). Qed.

Lemma run_eta {A} (m : M A) : m = (trace m, result m).
Proof. by destruct m. Qed.

Lemma trace_ret {A} (a : A) : trace (ret a) = [].
Proof. reflexivity. Qed.

Lemma result_ret {A} (a : A) : result (ret a) = Ret a.
Proof. reflexivity. Qed.

(** One step of a run whose head is known. *)
Ltac go_step :=
  match goal with
  | |- context [bind (ret ?a) ?k] => rewrite (bind_ret a k)
  | |- context [bind (emit ?e) ?k] => rewrite (bind_emit e k)
  | |- context [bind (?t, Ret ?a) ?k] => rewrite (bind_run t a k)
  | |- context [bind panic ?k] => rewrite (bind_panic k)
  end.

Ltac go_run :=
  repeat first
    [ go_step
    | rewrite trace_ret
    | rewrite result_ret
    | progress cbn [trace result fst snd deref app] ].

(** ** The batch decoder *)

Section Decoder.
Context {E : events.pkg} {J : json.pkg}.

(** One turn of the loop, by what the record is. *)
Lemma ParseEvents_loop_cons (r : string) (rest : list (option string))
    (elist : list (option events.Event)) (i : nat) :
  message_events.ParseEvents_loop (Some r :: rest) elist i =
  match classify r with
  | Faulty msg => ret (None, Some msg)
  | Skipped k =>
      (unhandled k :: trace (message_events.ParseEvents_loop rest elist i),
       result (message_events.ParseEvents_loop rest elist i))
  | Decoded e =>
      if i <? length elist
      then message_events.ParseEvents_loop rest (<[i := Some e]> elist) (S i)
      else panic
  end.
Proof.
  simpl. rewrite bind_ret. unfold classify.
  destruct (kind_tag_cases r) as [[-> ->]|(whole & k & -> & ->)]; simpl; [done |].
  destruct (events.EventForName k) as [e0|].
  - destruct (json.Unmarshal_Event r e0) as [e [err|]]; done.
  - by rewrite bind_emit.
Qed.

Lemma classify_no_match (r : string) :
  no_match r -> classify r = Faulty (message_events.no_type_error r).
Proof. intros Hno. unfold classify. by rewrite (proj2 (kind_tag_None r) Hno). Qed.

Lemma classify_decode_fails (r k perr : string) :
  decode_fails r k perr ->
  classify r = Faulty ("error parsing [" +:+ k +:+ "]: " +:+ perr).
Proof.
  intros (e0 & e & Hk & He0 & Hu). unfold classify. by rewrite Hk, He0, Hu.
Qed.

Lemma classify_decoded (r : string) (e : events.Event) :
  decoded r e -> classify r = Decoded e.
Proof.
  intros (k & e0 & Hk & He0 & Hu). unfold classify. by rewrite Hk, He0, Hu.
Qed.

Lemma classify_unregistered (r : string) :
  unregistered r = true ->
  exists k, kind_tag r = Some k /\ events.EventForName k = None /\
            classify r = Skipped k.
Proof.
  unfold unregistered, classify. destruct (kind_tag r) as [k|]; [|done].
  destruct (events.EventForName k) eqn:He0; [done |]. intros _. eauto.
Qed.

Lemma registered_decoded (r : string) (e : events.Event) :
  decoded r e -> registered r = true /\ unregistered r = false.
Proof.
  intros (k & e0 & Hk & He0 & _). unfold registered, unregistered.
  by rewrite Hk, He0.
Qed.

(** The loop over records that all pass: the skipped ones are logged,
    the decoded ones fill [elist] from [i] on, and the loop goes on
    with the records that follow. *)
Lemma ParseEvents_loop_passes (pre : list string) :
  forall (rest : list (option string)) (elist : list (option events.Event))
         (i : nat) (evs : list events.Event),
    Forall passes pre ->
    Forall2 decoded (List.filter registered pre) evs ->
    i + length pre <= length elist ->
    exists elist',
      length elist' = length elist /\
      take (i + length evs) elist' = take i elist ++ (Some <$> evs) /\
      message_events.ParseEvents_loop ((Some <$> pre) ++ rest) elist i =
      (unhandled_log pre ++
         trace (message_events.ParseEvents_loop rest elist' (i + length evs)),
       result (message_events.ParseEvents_loop rest elist' (i + length evs))).
Proof.
  induction pre as [|r pre IH]; intros rest elist i evs Hpass Hdec Hlen.
  - simpl in Hdec. apply Forall2_nil_inv_l in Hdec as ->. simpl.
    exists elist. rewrite Nat.add_0_r, app_nil_r.
    repeat split; auto. apply run_eta.
  - apply Forall_cons in Hpass as [Hr Hpass]. simpl in Hlen.
    rewrite fmap_cons, <- app_comm_cons, ParseEvents_loop_cons.
    destruct Hr as [Hun|[e He]].
    + destruct (classify_unregistered r Hun) as (k & Hk & He0 & ->).
      assert (registered r = false) as Hreg
        by (unfold registered; by rewrite Hk, He0).
      simpl in Hdec. rewrite Hreg in Hdec.
      destruct (IH rest elist i evs Hpass Hdec ltac:(lia))
        as (elist' & Hl & Htake & ->).
      exists elist'. repeat split; auto.
      simpl. by rewrite Hk, He0.
    + rewrite (classify_decoded r e He).
      destruct (registered_decoded r e He) as [Hreg Hun].
      simpl in Hdec. rewrite Hreg in Hdec.
      apply Forall2_cons_inv_l in Hdec as (e' & evs' & He' & Hdec & ->).
      assert (e' = e) as ->.
      { destruct He as (k & e0 & Hk & He0 & Hu).
        destruct He' as (k' & e0' & Hk' & He0' & Hu'). congruence. }
      destruct (Nat.ltb_spec i (length elist)) as [Hi|]; [|lia].
      destruct (IH rest (<[i := Some e]> elist) (S i) evs' Hpass Hdec)
        as (elist' & Hl & Htake & ->).
      { rewrite length_insert. lia. }
      exists elist'. rewrite length_insert in Hl.
      replace (i + length (e :: evs')) with (S i + length evs') by (simpl; lia).
      repeat split; auto.
      * rewrite Htake.
        rewrite (take_S_r _ _ (Some e)) by by apply list_lookup_insert_eq.
        rewrite take_insert_ge by lia. by rewrite <- app_assoc.
      * destruct He as (k & e0 & Hk & He0 & _). simpl. by rewrite Hk, He0.
Qed.

Lemma classify_total (r : string) :
  passes r \/ exists msg, classify r = Faulty msg.
Proof.
  unfold passes, unregistered, decoded, classify.
  destruct (kind_tag r) as [k|]; [|right; eauto].
  destruct (events.EventForName k) as [e0|] eqn:He0; [|by left; left].
  destruct (json.Unmarshal_Event r e0) as [e [err|]] eqn:Hu; [right; eauto |].
  left; right. exists e, k, e0. by rewrite He0.
Qed.

(** The events of a prefix of passing records. *)
Lemma passes_decoded (pre : list string) :
  Forall passes pre -> exists evs, Forall2 decoded (List.filter registered pre) evs.
Proof.
  induction 1 as [|r pre Hr _ [evs IH]]; [by exists [] |].
  simpl. destruct (registered r) eqn:Hreg; [|by exists evs].
  destruct Hr as [Hun|[e He]].
  - destruct (classify_unregistered r Hun) as (k & Hk & He0 & _).
    unfold registered in Hreg. by rewrite Hk, He0 in Hreg.
  - exists (e :: evs). by constructor.
Qed.

(** The first record that does not pass ends the run with its fault;
    only the lines for the skipped records before it were written. *)
Lemma ParseEvents_first_fault (pre post : list string) (r msg : string) :
  Forall passes pre -> classify r = Faulty msg ->
  message_events.ParseEvents (Some <$> (pre ++ r :: post)) =
  (unhandled_log pre, Ret (None, Some msg)).
Proof.
  intros Hpass Hr. destruct (passes_decoded pre Hpass) as [evs Hdec].
  unfold message_events.ParseEvents. rewrite fmap_app, fmap_cons.
  destruct (ParseEvents_loop_passes pre (Some r :: (Some <$> post))
              (replicate (length ((Some <$> pre) ++ Some r :: (Some <$> post))) None)
              0 evs Hpass Hdec) as (elist' & _ & _ & ->).
  { rewrite length_replicate, length_app, length_fmap. simpl. lia. }
  rewrite ParseEvents_loop_cons, Hr. simpl. by rewrite app_nil_r.
Qed.

(** A list with a faulty record has a first one. *)
Lemma first_fault (recs : list string) :
  Exists (fun r => exists msg, classify r = Faulty msg) recs ->
  exists pre r post msg,
    recs = pre ++ r :: post /\ Forall passes pre /\ classify r = Faulty msg.
Proof.
  induction recs as [|r recs IH]; intros Hex; [by apply Exists_nil in Hex |].
  destruct (classify_total r) as [Hr|[msg Hr]].
  - apply Exists_cons in Hex as [[msg Hmsg]|Hex].
    + exists [], r, recs, msg. by repeat split.
    + destruct (IH Hex) as (pre & r' & post & msg & -> & Hpass & Hr').
      exists (r :: pre), r', post, msg. repeat split; auto.
  - exists [], r, recs, msg. by repeat split.
Qed.

Lemma ParseEvents_fault (recs : list string) :
  Exists (fun r => exists msg, classify r = Faulty msg) recs ->
  exists log msg,
    message_events.ParseEvents (Some <$> recs) = (log, Ret (None, Some msg)).
Proof.
  intros Hex.
  destruct (first_fault recs Hex) as (pre & r & post & msg & -> & Hpass & Hr).
  eexists _, msg. by apply ParseEvents_first_fault.
Qed.

(** Every record of the list has a kind and every registered one
    decodes: all records pass. *)
Lemma tagged_decoded_passes (recs : list string) (evs : list events.Event) :
  Forall (fun r => is_Some (kind_tag r)) recs ->
  Forall2 decoded (List.filter registered recs) evs ->
  Forall passes recs.
Proof.
  revert evs. induction recs as [|r recs IH]; intros evs Htag Hdec; [done |].
  apply Forall_cons in Htag as [[k Hk] Htag]. simpl in Hdec.
  destruct (registered r) eqn:Hreg.
  - apply Forall2_cons_inv_l in Hdec as (e & evs' & He & Hdec & ->).
    constructor; [right; eauto | eauto].
  - constructor; [left | eauto].
    unfold registered in Hreg. unfold unregistered. rewrite Hk in *.
    by destruct (events.EventForName k).
Qed.

(** With a kind on every record, each record is registered or not. *)
Lemma tagged_partition (recs : list string) :
  Forall (fun r => is_Some (kind_tag r)) recs ->
  length recs =
  length (List.filter registered recs) + length (List.filter unregistered recs).
Proof.
  induction 1 as [|r recs [k Hk] _ IH]; [done |].
  simpl. unfold registered at 1, unregistered at 1. rewrite Hk.
  destruct (events.EventForName k); simpl; lia.
Qed.

Lemma length_unhandled_log (recs : list string) :
  length (unhandled_log recs) = length (List.filter unregistered recs).
Proof.
  induction recs as [|r recs IH]; [done |].
  simpl. unfold unregistered at 1.
  destruct (kind_tag r) as [k|]; [|done].
  destruct (events.EventForName k); simpl; by rewrite ?IH.
Qed.

(** A list of records passes as a whole or holds a faulty record. *)
Lemma passes_or_fault (recs : list string) :
  Forall passes recs \/
  Exists (fun r => exists msg, classify r = Faulty msg) recs.
Proof.
  induction recs as [|r recs [IH|IH]].
  - left. constructor.
  - destruct (classify_total r) as [Hr|Hr].
    + left. by constructor.
    + right. by apply Exists_cons_hd.
  - right. by apply Exists_cons_tl.
Qed.

(** C1.  Take a list of records, given by non-nil pointers, that all
    yield a kind-tag.  If [evs] are the events that the records of
    registered kinds decode to, in the order of the records, then
    [ParseEvents] returns exactly [evs] with a nil error: no entry of the
    slice is empty, and with [K] records of unregistered kinds among the
    [N] given the slice has [N - K] entries.  Conversely a slice that
    [ParseEvents] returns is made of those events, one per registered
    record and in their order.  One line goes to stderr per record of an
    unregistered kind. *)
Theorem ParseEvents_registered_in_order (recs : list string) :
  Forall (fun r => is_Some (kind_tag r)) recs ->
  (forall evs : list events.Event,
     Forall2 decoded (List.filter registered recs) evs ->
     message_events.ParseEvents (Some <$> recs) =
       (unhandled_log recs, Ret (Some (Some <$> evs), None)) /\
     length evs = length recs - length (List.filter unregistered recs)) /\
  (forall log out err,
     message_events.ParseEvents (Some <$> recs) = (log, Ret (Some out, err)) ->
     exists evs : list events.Event,
       Forall2 decoded (List.filter registered recs) evs /\ out = Some <$> evs) /\
  length (unhandled_log recs) = length (List.filter unregistered recs).
Proof.
  intros Htag.
  assert (forall evs : list events.Event,
            Forall2 decoded (List.filter registered recs) evs ->
            message_events.ParseEvents (Some <$> recs) =
            (unhandled_log recs, Ret (Some (Some <$> evs), None))) as Hrun.
  { intros evs Hdec.
    pose proof (tagged_decoded_passes recs evs Htag Hdec) as Hpass.
    unfold message_events.ParseEvents.
    destruct (ParseEvents_loop_passes recs []
                (replicate (length (Some <$> recs)) None) 0 evs Hpass Hdec)
      as (elist' & _ & Htake & Hloop).
    { rewrite length_replicate, length_fmap. lia. }
    rewrite app_nil_r in Hloop. rewrite Hloop. simpl.
    simpl in Htake. by rewrite app_nil_r, Htake. }
  split; [|split].
  - intros evs Hdec. split; [by apply Hrun |].
    rewrite <- (Forall2_length _ _ _ Hdec), (tagged_partition recs Htag). lia.
  - intros log out err Hout.
    destruct (passes_or_fault recs) as [Hpass|Hex].
    + destruct (passes_decoded recs Hpass) as [evs Hdec].
      exists evs. split; [done |].
      rewrite (Hrun evs Hdec) in Hout. by injection Hout as _ <- _.
    + destruct (ParseEvents_fault recs Hex) as (log' & msg & Hfault).
      rewrite Hfault in Hout. discriminate.
  - apply length_unhandled_log.
Qed.

(** C4.  When a record of a list, given by non-nil pointers, is of a
    registered kind [k] and fails to decode with the error [perr],
    [ParseEvents] returns a nil slice and an error for the whole list;
    and when every record before it passes, the error names [k] and ends
    with [perr]. *)
Theorem ParseEvents_decode_fault (pre post : list string) (r k perr : string) :
  decode_fails r k perr ->
  (exists log msg,
     message_events.ParseEvents (Some <$> (pre ++ r :: post)) =
     (log, Ret (None, Some msg))) /\
  (Forall passes pre ->
   message_events.ParseEvents (Some <$> (pre ++ r :: post)) =
   (unhandled_log pre,
    Ret (None, Some ("error parsing [" +:+ k +:+ "]: " +:+ perr)))).
Proof.
  intros Hr. apply classify_decode_fails in Hr. split.
  - apply ParseEvents_fault, Exists_app. right. apply Exists_cons_hd. eauto.
  - intros Hpass. by apply ParseEvents_first_fault.
Qed.

End Decoder.

(** C8.  The kind-tag that [typeMatch] hands to the decoder is the word
    of the first occurrence of the pattern in the bytes of the record,
    wherever that is.  The record [sample.nested_record] has the
    top-level field [type] with the value [delivery], and before it, in
    a nested value, a field [type] with the value [bounce]: its kind-tag
    is [bounce], and the decoder builds a bounce event from it. *)
Theorem typeMatch_first_occurrence :
  (forall r w,
     (exists whole, message_events.typeMatch r = [whole; w]) <->
     (exists pre, first_occurrence r pre w)) /\
  (exists pre, occurs sample.nested_record pre "delivery") /\
  kind_tag sample.nested_record = Some "bounce" /\
  @message_events.ParseEvents sample.ev sample.js [Some sample.nested_record] =
    ([], Ret (Some [Some (sample.Bounce sample.nested_record)], None)).
Proof.
  split; [|split; [|split]].
  - intros r w. apply FindStringSubmatch_first.
  - exists ("{" +:+ sample.quoted "rcpt_meta" +:+ ":{" +:+ sample.quoted "type"
            +:+ ":" +:+ sample.quoted "bounce" +:+ "},").
    apply occurs_split. eexists _, _. split; reflexivity.
  - reflexivity.
  - reflexivity.
Qed.

(** ** The handle *)

(** C9.  With a body kept on the handle, [ReadBody] returns that body and
    a nil error, reads nothing and leaves the handle as it is, whatever
    its argument is, nil included.  So after a call that returned a
    non-nil body [body], with or without an error, every later call on
    the handle returns [body] and a nil error for any response. *)
Theorem ReadBody_cached :
  (forall (a : api.API) (body : string) (res : option http.Response),
     api.cached a = Some body ->
     api.ReadBody a res = ([], Ret (a, (Some body, None)))) /\
  (forall (a a1 : api.API) (res1 res2 : option http.Response)
          (tr : list effect) (body : string) (err : option string),
     api.ReadBody a res1 = (tr, Ret (a1, (Some body, err))) ->
     api.ReadBody a1 res2 = ([], Ret (a1, (Some body, None)))).
Proof.
  assert (forall a body res, api.cached a = Some body ->
            api.ReadBody a res = ([], Ret (a, (Some body, None)))) as Hcached.
  { intros a body res Hc. unfold api.ReadBody. by rewrite Hc. }
  split; [exact Hcached |].
  intros a a1 res1 res2 tr body err Hrun. apply Hcached.
  unfold api.ReadBody in Hrun.
  destruct (api.cached a) as [b|] eqn:Hc.
  - injection Hrun as _ <- <- _. exact Hc.
  - destruct res1 as [r|]; [|discriminate].
    simpl in Hrun. rewrite bind_ret, bind_emit in Hrun.
    destruct (http.Body r) as [bodyBytes e].
    rewrite bind_emit in Hrun. injection Hrun as _ <- -> _. reflexivity.
Qed.

(** C10.  On a nil response [AssertJson] returns the error of line 318;
    and on every argument, nil or not, it returns without a panic and
    without an effect. *)
Theorem AssertJson_nil :
  api.AssertJson None = ([], Ret (Some "AssertJson got nil http.Response")) /\
  (forall res, exists err, api.AssertJson res = ([], Ret err)).
Proof.
  split; [reflexivity |].
  intros [r|]; [|by eexists].
  unfold api.AssertJson. simpl. rewrite bind_ret.
  destruct (negb _); by eexists.
Qed.

(** ** Case folding *)

Lemma all_ascii_complete (c : ascii) : In c all_ascii.
Proof.
  unfold all_ascii. rewrite <- (ascii_nat_embedding c).
  apply in_map, in_seq. pose proof (nat_ascii_bounded c). lia.
Qed.

(** A property of bytes that holds on each of the 256 holds on all. *)
Lemma ascii_forall (P : ascii -> bool) :
  forallb P all_ascii = true -> forall c, P c = true.
Proof. intros Hall c. eapply forallb_forall; [exact Hall | apply all_ascii_complete]. Qed.

Lemma fold_eqb_lower (a b : ascii) :
  gostrings.fold_eqb a b = Ascii.eqb (gostrings.lower a) (gostrings.lower b).
Proof.
  pose proof (ascii_forall (fun a => forallb (fun b =>
                Bool.eqb (gostrings.fold_eqb a b)
                         (Ascii.eqb (gostrings.lower a) (gostrings.lower b)))
                all_ascii)) as Hall.
  specialize (Hall ltac:(vm_compute; reflexivity) a). cbv beta in Hall.
  apply Bool.eqb_prop.
  eapply forallb_forall in Hall; [exact Hall | apply all_ascii_complete].
Qed.

Lemma is_ascii_lower (c : ascii) :
  gostrings.is_ascii (gostrings.lower c) = gostrings.is_ascii c.
Proof.
  apply Bool.eqb_prop.
  apply (ascii_forall (fun c =>
           Bool.eqb (gostrings.is_ascii (gostrings.lower c)) (gostrings.is_ascii c))).
  vm_compute; reflexivity.
Qed.

Lemma every_ascii_lower (s : string) :
  every gostrings.is_ascii (to_lower s) = every gostrings.is_ascii s.
Proof.
  induction s as [|c s IH]; [done |]. simpl. by rewrite is_ascii_lower, IH.
Qed.

(** On a string of ASCII bytes [EqualFold] is equality of the lower-case
    forms. *)
Lemma EqualFold_ascii (s t : string) :
  every gostrings.is_ascii s = true ->
  gostrings.EqualFold s t = String.eqb (to_lower s) (to_lower t).
Proof.
  revert t. induction s as [|sr s IH]; intros [|tr t] Hs; try done.
  simpl in Hs. apply andb_true_iff in Hs as [Hsr Hs].
  simpl. rewrite Hsr, fold_eqb_lower, IH by done. reflexivity.
Qed.

Lemma EqualFold_jctype (ctype : string) :
  to_lower ctype = api.jctype -> gostrings.EqualFold ctype api.jctype = true.
Proof.
  intros Hl. rewrite EqualFold_ascii.
  - rewrite Hl. reflexivity.
  - by rewrite <- every_ascii_lower, Hl.
Qed.

(** ** Requests *)

Section Requests.
Context {U : url.pkg} {E : events.pkg} {J : json.pkg}.

Lemma validate_None (types : list string) :
  message_events.validate types = None <-> all_valid types.
Proof.
  unfold all_valid. induction types as [|t types IH]; simpl.
  - split; [constructor | done].
  - destruct (events.ValidEventType t) eqn:Ht; simpl.
    + rewrite IH. split; [by constructor | by intros [_ ?]%Forall_cons].
    + split; [done | intros [? _]%Forall_cons; congruence].
Qed.

Lemma validate_first (pre post : list string) (bad : string) :
  all_valid pre -> events.ValidEventType bad = false ->
  message_events.validate (pre ++ bad :: post) =
  Some ("Invalid event type [" +:+ bad +:+ "]").
Proof.
  intros Hpre Hbad. induction Hpre as [|t pre Ht _ IH]; simpl.
  - by rewrite Hbad.
  - by rewrite Ht.
Qed.

(** [HttpGet] sends at most one request and reads no body. *)
Lemma HttpGet_trace (m : api.API) (url : string) :
  trace (api.HttpGet m url) = [] \/
  exists req, trace (api.HttpGet m url) = [HttpDo req].
Proof.
  unfold api.HttpGet. destruct (url.Parse url); [|by left].
  destruct (api.Config_of m) as [cfg|]; [|by left].
  simpl. go_run.
  destruct (api.Client m) as [do_|]; [|by left].
  simpl. go_run. right. by eexists.
Qed.

Lemma HttpGet_sends (m : api.API) (cfg : api.Config) (do_ : http.Client)
    (url : string) (u : url.URL) :
  api.Config_of m = Some cfg -> api.Client m = Some do_ ->
  url.Parse url = inl u ->
  api.HttpGet m url = ([HttpDo (get_request cfg url)], Ret (do_ (get_request cfg url))).
Proof.
  intros Hcfg Hcl Hp. unfold api.HttpGet. rewrite Hp, Hcfg, Hcl. simpl.
  by go_run.
Qed.

(** A run of [Samples] that stops at the validation of the types. *)
Lemma Samples_invalid (m : api.API) (types : list string) (err : string) :
  message_events.validate types = Some err ->
  message_events.Samples m (Some types) = ([], Ret (m, (None, Some err))).
Proof.
  intros Hv. unfold message_events.Samples, message_events.samples_url.
  rewrite Hv. by go_run.
Qed.

(** C3.  With a filter whose first invalid kind is [bad], [Samples]
    returns the error that names [bad], sends no request, has no other
    effect and leaves the handle as it is; and for every filter, a run
    of [Samples] that sends a request has validated every kind. *)
Theorem Samples_rejects_invalid_type
    (m : api.API) (pre post : list string) (bad : string) :
  all_valid pre -> events.ValidEventType bad = false ->
  message_events.Samples m (Some (pre ++ bad :: post)) =
    ([], Ret (m, (None, Some ("Invalid event type [" +:+ bad +:+ "]")))) /\
  (forall (m' : api.API) (types : list string) (req : http.Request),
     In (HttpDo req) (trace (message_events.Samples m' (Some types))) ->
     all_valid types).
Proof.
  intros Hpre Hbad. split.
  - by apply Samples_invalid, validate_first.
  - intros m' types req Hin. apply validate_None.
    destruct (message_events.validate types) as [err|] eqn:Hv; [|done].
    rewrite (Samples_invalid m' types err Hv) in Hin. by destruct Hin.
Qed.

(** C7.  With a filter of valid kinds, on a handle with a
    configuration and a client, when the base URL followed by the path
    and [/events/samples] parses to [u] and [http.NewRequest] accepts
    the URL built from it, [Samples] first sends the GET request whose
    URL is [u] with the query [qv] re-encoded; [qv] holds the single
    value [strings.Join(types, ",")] under the key [events] and is the
    query of [u] on every other key. *)
Theorem Samples_events_query (m : api.API) (cfg : api.Config)
    (do_ : http.Client) (types : list string) (u u' : url.URL) :
  let base := api.BaseUrl cfg +:+ api.Path m +:+ "/events/samples" in
  let qv := url.Values_Set (url.Query u) "events" (gostrings.Join types ",") in
  let target := url.URL_String (url.set_RawQuery u (url.Encode qv)) in
  api.Config_of m = Some cfg -> api.Client m = Some do_ ->
  all_valid types ->
  url.Parse base = inl u ->
  url.Parse target = inl u' ->
  qv !! "events" = Some [gostrings.Join types ","] /\
  (forall key, key <> "events" -> qv !! key = url.Query u !! key) /\
  exists rest : list effect,
    trace (message_events.Samples m (Some types)) =
      HttpDo {| http.Method := "GET"; http.URL := target;
                http.ReqHeader := {[ "Authorization" := [api.ApiKey cfg] ]} |}
      :: rest.
Proof.
  intros base qv target Hcfg Hcl Hval Hu Hu'.
  split; [apply lookup_insert_eq | split].
  - intros key Hne. by apply lookup_insert_ne.
  - eexists. unfold message_events.Samples, message_events.samples_url.
    rewrite (proj2 (validate_None types) Hval), Hcfg. simpl.
    go_run. fold base. rewrite Hu. go_run. fold qv. fold target.
    rewrite (HttpGet_sends m cfg do_ _ u' Hcfg Hcl Hu'). go_run.
    reflexivity.
Qed.

(** C5.  On a handle without a kept body, when the server answers the
    request with a response of a JSON content type whose body reads
    without an error: if [json.Unmarshal] decodes the body without an
    error into a map that has no key [results], [Samples] returns a nil
    slice and the error [no results!]; and if [json.Unmarshal] fails on
    the body, [Samples] returns a nil slice and that error.  In neither
    case does it return a slice of events. *)
Theorem Samples_no_results (m : api.API) (types : option (list string))
    (url : string) (tr : list effect) (res : http.Response)
    (body : option string) (resMap : gmap string (list (option string))) :
  message_events.samples_url m types = ([], Ret (inl url)) ->
  api.HttpGet m url = (tr, Ret (Some res, None)) ->
  api.AssertJson (Some res) = ([], Ret None) ->
  api.cached m = None ->
  http.Body res = (body, None) ->
  exists m',
    (json.Unmarshal_resMap (default EmptyString body) = (resMap, None) ->
     resMap !! "results" = None ->
     message_events.Samples m types =
     (tr ++ [BodyRead; BodyClose], Ret (m', (None, Some "no results!")))) /\
    (forall err,
       json.Unmarshal_resMap (default EmptyString body) = (resMap, Some err) ->
       message_events.Samples m types =
       (tr ++ [BodyRead; BodyClose], Ret (m', (None, Some err)))).
Proof.
  intros Hurl Hget Hjson Hc Hbody.
  exists (message_events.caller_view m (api.store_body m body)).
  unfold message_events.Samples.
  rewrite Hurl. go_run. rewrite Hget. go_run. rewrite Hjson. go_run.
  unfold api.ReadBody. rewrite Hc. simpl. go_run. rewrite Hbody. go_run.
  split.
  - intros Hun Hres. rewrite Hun, Hres. by go_run.
  - intros err Hun. rewrite Hun. by go_run.
Qed.

(** A run of [Samples] that stops at the content type. *)
Lemma Samples_not_json (m : api.API) (types : option (list string))
    (url : string) (tr : list effect) (res : option http.Response)
    (err : string) :
  message_events.samples_url m types = ([], Ret (inl url)) ->
  api.HttpGet m url = (tr, Ret (res, None)) ->
  api.AssertJson res = ([], Ret (Some err)) ->
  message_events.Samples m types = (tr, Ret (m, (None, Some err))).
Proof.
  intros Hurl Hget Hjson. unfold message_events.Samples.
  rewrite Hurl. go_run. rewrite Hget. go_run. rewrite Hjson. go_run.
  by rewrite app_nil_r.
Qed.

(** C6.  For a response with the content type [ctype]: [AssertJson]
    returns nil when [ctype] is equal to [application/json] under case
    folding or starts with it, in particular when its lower-case form
    is [application/json]; otherwise it returns the error that quotes
    [ctype] and the status code, in particular for a [ctype] of ASCII
    bytes whose lower-case form differs from [application/json] and
    that does not start with it.  And when [AssertJson] returns an
    error for the response that [HttpGet] got, [Samples] returns that
    error with no [BodyRead] in its trace. *)
Theorem AssertJson_content_type (res : http.Response) (ctype : string) :
  http.Header_Get (http.Header_of res) "Content-Type" = ctype ->
  let rejected :=
    ([], Ret (Some ("Expected json, got [" +:+ ctype +:+ "] with code "
                    +:+ gostrings.itoa (http.StatusCode res)))) in
  (gostrings.EqualFold ctype api.jctype = true \/
   gostrings.HasPrefix ctype api.jctype = true ->
   api.AssertJson (Some res) = ([], Ret None)) /\
  (to_lower ctype = api.jctype -> api.AssertJson (Some res) = ([], Ret None)) /\
  (gostrings.EqualFold ctype api.jctype = false ->
   gostrings.HasPrefix ctype api.jctype = false ->
   api.AssertJson (Some res) = rejected) /\
  (every gostrings.is_ascii ctype = true -> to_lower ctype <> api.jctype ->
   gostrings.HasPrefix ctype api.jctype = false ->
   api.AssertJson (Some res) = rejected) /\
  (forall (m : api.API) (types : option (list string)) (url : string)
          (tr : list effect) (err : string),
     message_events.samples_url m types = ([], Ret (inl url)) ->
     api.HttpGet m url = (tr, Ret (Some res, None)) ->
     api.AssertJson (Some res) = ([], Ret (Some err)) ->
     message_events.Samples m types = (tr, Ret (m, (None, Some err))) /\
     ~ In BodyRead tr).
Proof.
  intros Hct rejected.
  assert (gostrings.EqualFold ctype api.jctype = true \/
          gostrings.HasPrefix ctype api.jctype = true ->
          api.AssertJson (Some res) = ([], Ret None)) as Haccept.
  { intros Hor. unfold api.AssertJson. simpl. go_run. rewrite Hct.
    destruct Hor as [-> | ->]; [done |]. by rewrite orb_true_r. }
  assert (gostrings.EqualFold ctype api.jctype = false ->
          gostrings.HasPrefix ctype api.jctype = false ->
          api.AssertJson (Some res) = rejected) as Hreject.
  { intros Hf Hp. unfold api.AssertJson. simpl. go_run. rewrite Hct.
    by rewrite Hf, Hp. }
  split; [exact Haccept | split; [|split; [exact Hreject | split]]].
  - intros Hl. apply Haccept. left. by apply EqualFold_jctype.
  - intros Hascii Hne Hp. apply Hreject; [|done].
    rewrite EqualFold_ascii by done.
    apply String.eqb_neq. by change (to_lower api.jctype) with api.jctype.
  - intros m types url tr err Hurl Hget Hjson. split.
    + by apply (Samples_not_json m types url tr (Some res) err).
    + destruct (HttpGet_trace m url) as [Ht|[req Ht]];
        rewrite Hget in Ht; simpl in Ht; subst tr.
      * by intros [].
      * by intros [|[]].
Qed.

(** How a run of [bind] that returns came about. *)
Lemma bind_Ret_inv {A B} (c : M A) (k : A -> M B) (tr : list effect) (b : B) :
  bind c k = (tr, Ret b) ->
  exists t1 a t2, c = (t1, Ret a) /\ k a = (t2, Ret b) /\ tr = t1 ++ t2.
Proof.
  destruct c as [t1 [a|]]; [|discriminate].
  rewrite bind_run. destruct (k a) as [t2 r] eqn:Hk. simpl.
  intros [= <- ->]. by exists t1, a, t2.
Qed.

(** X10.  [Samples] works on a copy of the handle: a caller's handle
    without a [Response] is the same after the call, so that a handle
    built by [New] and used through [Samples] alone never keeps a body. *)
Lemma Samples_keeps_fresh (m m' : api.API) (types : option (list string))
    (tr : list effect)
    (r : option (list (option events.Event)) * option string) :
  api.Response_of m = None ->
  message_events.Samples m types = (tr, Ret (m', r)) ->
  m' = m.
Proof.
  intros Hnone Hrun. unfold message_events.Samples in Hrun.
  assert (forall m1, message_events.caller_view m m1 = m) as Hview
    by (intros m1; unfold message_events.caller_view; by rewrite Hnone).
  apply bind_Ret_inv in Hrun as (t1 & [url|err] & t2 & _ & Hrun & _);
    [|by injection Hrun as _ <- _].
  apply bind_Ret_inv in Hrun as (t3 & [res [err|]] & t4 & _ & Hrun & _);
    [by injection Hrun as _ <- _ |].
  apply bind_Ret_inv in Hrun as (t5 & [err|] & t6 & _ & Hrun & _);
    [by injection Hrun as _ <- _ |].
  apply bind_Ret_inv in Hrun as (t7 & [m1 [bodyBytes [err|]]] & t8 & _ & Hrun & _);
    [rewrite Hview in Hrun; by injection Hrun as _ <- _ |].
  rewrite Hview in Hrun.
  destruct (json.Unmarshal_resMap (default EmptyString bodyBytes))
    as [resMap [err|]]; [by injection Hrun as _ <- _ |].
  destruct (resMap !! "results") as [results|]; [|by injection Hrun as _ <- _].
  apply bind_Ret_inv in Hrun as (t9 & r9 & t10 & _ & Hrun & _).
  by injection Hrun as _ <- _.
Qed.

End Requests.

(** ** The theorems at work on the sample instance *)

(** A nil entry of the list makes the loop dereference a nil pointer. *)
Example ParseEvents_nil_entry :
  @message_events.ParseEvents sample.ev sample.js [None] = ([], Panic).
Proof. reflexivity. Qed.

(** On a handle that keeps a body, [Samples] decodes the kept body and
    not the body of the response it got. *)
Example Samples_kept_body :
  let res := sample.answer "application/json" 200 "{}" in
  result (@message_events.Samples sample.ur sample.ev sample.js
            (sample.used_handle res sample.body_three) None) =
  Ret (sample.used_handle res sample.body_three,
       (Some [Some (sample.Delivery (sample.record_of "delivery"));
              Some (sample.Bounce (sample.record_of "bounce"))], None)).
Proof. reflexivity. Qed.

(** Three records, the second of the unknown kind [click]. *)
Lemma ParseEvents_registered_in_order_witness :
  let recs := [sample.record_of "delivery"; sample.record_of "click";
               sample.record_of "bounce"] in
  let evs := [sample.Delivery (sample.record_of "delivery");
              sample.Bounce (sample.record_of "bounce")] in
  Forall (fun r => is_Some (kind_tag r)) recs /\
  Forall2 (@decoded sample.ev sample.js) (List.filter (@registered sample.ev) recs) evs /\
  @message_events.ParseEvents sample.ev sample.js (Some <$> recs) =
    ([Stderr ("unhandled event type [click]" +:+ String newline EmptyString)],
     Ret (Some (Some <$> evs), None)) /\
  length evs = 3 - 1.
Proof.
  intros recs evs.
  assert (Forall (fun r => is_Some (kind_tag r)) recs) as Htag.
  { repeat constructor; eexists; vm_compute; reflexivity. }
  assert (Forall2 (@decoded sample.ev sample.js)
            (List.filter (@registered sample.ev) recs) evs) as Hdec.
  { repeat constructor; eexists _, _; repeat split; vm_compute; reflexivity. }
  destruct (@ParseEvents_registered_in_order sample.ev sample.js recs Htag)
    as (Hrun & _ & _).
  destruct (Hrun evs Hdec) as [Hout Hlen].
  split; [exact Htag | split; [exact Hdec | split; [exact Hout | exact Hlen]]].
Defined.

(** A record of the kind [delivery] that is cut short. *)
Lemma ParseEvents_decode_fault_witness :
  let r := "{" +:+ sample.quoted "type" +:+ ":" +:+ sample.quoted "delivery" in
  @decode_fails sample.ev sample.js r "delivery" "unexpected end of JSON input" /\
  @message_events.ParseEvents sample.ev sample.js
    (Some <$> ([sample.record_of "click"] ++ r :: [sample.record_of "bounce"])) =
    ([Stderr ("unhandled event type [click]" +:+ String newline EmptyString)],
     Ret (None, Some "error parsing [delivery]: unexpected end of JSON input")).
Proof.
  intros r.
  assert (@decode_fails sample.ev sample.js r "delivery"
            "unexpected end of JSON input") as Hr.
  { eexists _, _. repeat split; vm_compute; reflexivity. }
  split; [exact Hr |].
  destruct (@ParseEvents_decode_fault sample.ev sample.js
              [sample.record_of "click"] [sample.record_of "bounce"] r
              "delivery" "unexpected end of JSON input" Hr) as [_ Hfirst].
  apply Hfirst. constructor; [|constructor]. left. reflexivity.
Defined.

(** The first occurrence in the nested record is the nested one. *)
Lemma typeMatch_first_occurrence_witness :
  exists pre, first_occurrence sample.nested_record pre "bounce".
Proof.
  destruct typeMatch_first_occurrence as [Hfirst _].
  apply (Hfirst sample.nested_record "bounce").
  eexists. reflexivity.
Defined.

(** A second call with another response, after a read that failed. *)
Lemma ReadBody_cached_witness :
  let a := sample.handle (sample.answer "application/json" 200 "{}") in
  let res1 := {| http.Header_of := ∅; http.StatusCode := 200;
                 http.Body := (Some "first", Some "unexpected EOF") |} in
  let res2 := sample.answer "application/json" 200 "second" in
  exists tr a1,
    api.ReadBody a (Some res1) = (tr, Ret (a1, (Some "first", Some "unexpected EOF"))) /\
    api.cached a1 = Some "first" /\
    api.ReadBody a1 (Some res2) = ([], Ret (a1, (Some "first", None))) /\
    api.ReadBody a1 None = ([], Ret (a1, (Some "first", None))).
Proof.
  intros a res1 res2.
  destruct ReadBody_cached as [Hcached Hagain].
  eexists _, _. split; [reflexivity |]. split; [reflexivity |]. split.
  - eapply (Hagain a _ (Some res1) (Some res2)). reflexivity.
  - apply Hcached. reflexivity.
Defined.

(** The filter of the specification: [delivery] and [bogus_kind]. *)
Lemma Samples_rejects_invalid_type_witness :
  let m := sample.handle (sample.answer "application/json" 200 sample.body_three) in
  @all_valid sample.ev ["delivery"] /\
  @events.ValidEventType sample.ev "bogus_kind" = false /\
  @message_events.Samples sample.ur sample.ev sample.js m
    (Some (["delivery"] ++ "bogus_kind" :: [])) =
    ([], Ret (m, (None, Some "Invalid event type [bogus_kind]"))).
Proof.
  intros m.
  assert (@all_valid sample.ev ["delivery"]) as Hpre by (repeat constructor).
  assert (@events.ValidEventType sample.ev "bogus_kind" = false) as Hbad
    by reflexivity.
  split; [exact Hpre | split; [exact Hbad |]].
  exact (proj1 (@Samples_rejects_invalid_type sample.ur sample.ev sample.js
                  m ["delivery"] [] "bogus_kind" Hpre Hbad)).
Defined.

(** The request for the kinds [delivery] and [bounce]. *)
Lemma Samples_events_query_witness :
  let res := sample.answer "application/json" 200 sample.body_three in
  let m := sample.handle res in
  exists rest : list effect,
    trace (@message_events.Samples sample.ur sample.ev sample.js m
             (Some ["delivery"; "bounce"])) =
    HttpDo {| http.Method := "GET";
              http.URL := "https://api.example.com/api/v1/message-events/events/samples?events=delivery%2Cbounce";
              http.ReqHeader := {[ "Authorization" := ["key"] ]} |} :: rest.
Proof.
  intros res m.
  destruct (@Samples_events_query sample.ur sample.ev sample.js m sample.cfg
              (sample.server res) ["delivery"; "bounce"]
              ("https://api.example.com/api/v1/message-events/events/samples",
               EmptyString)
              ("https://api.example.com/api/v1/message-events/events/samples?events=delivery%2Cbounce",
               EmptyString))
    as (_ & _ & rest & Hrun).
  - reflexivity.
  - reflexivity.
  - repeat constructor.
  - reflexivity.
  - reflexivity.
  - exists rest. exact Hrun.
Defined.

(** A JSON body without the field [results]. *)
Lemma Samples_no_results_witness :
  let res := sample.answer "application/json" 200 "{}" in
  let m := sample.handle res in
  api.cached m = None /\
  @json.Unmarshal_resMap sample.ev sample.js "{}" = (∅, None) /\
  exists tr m',
    @message_events.Samples sample.ur sample.ev sample.js m None =
    (tr ++ [BodyRead; BodyClose], Ret (m', (None, Some "no results!"))).
Proof.
  intros res m. split; [reflexivity | split; [reflexivity |]].
  destruct (@Samples_no_results sample.ur sample.ev sample.js m None
              "https://api.example.com/api/v1/message-events/events/samples"
              [HttpDo (get_request sample.cfg
                 "https://api.example.com/api/v1/message-events/events/samples")]
              res (Some "{}") ∅) as [m' [Hrun _]].
  - reflexivity.
  - reflexivity.
  - reflexivity.
  - reflexivity.
  - reflexivity.
  - eexists _, m'. apply Hrun; reflexivity.
Defined.

(** The response of the specification: [text/html], here with code 503;
    and a content type with a character set. *)
Lemma AssertJson_content_type_witness :
  api.AssertJson (Some (sample.answer "text/html" 503 "<html>")) =
    ([], Ret (Some "Expected json, got [text/html] with code 503")) /\
  api.AssertJson
    (Some (sample.answer "application/json; charset=utf-8" 200 "{}")) =
    ([], Ret None) /\
  api.AssertJson (Some (sample.answer "Application/JSON" 200 "{}")) = ([], Ret None).
Proof.
  split; [|split].
  - destruct (@AssertJson_content_type sample.ur sample.ev sample.js
                (sample.answer "text/html" 503 "<html>") "text/html" eq_refl)
      as (_ & _ & Hreject & _).
    apply Hreject; reflexivity.
  - destruct (@AssertJson_content_type sample.ur sample.ev sample.js
                (sample.answer "application/json; charset=utf-8" 200 "{}")
                "application/json; charset=utf-8" eq_refl)
      as (Haccept & _).
    apply Haccept. right. reflexivity.
  - destruct (@AssertJson_content_type sample.ur sample.ev sample.js
                (sample.answer "Application/JSON" 200 "{}")
                "Application/JSON" eq_refl)
      as (_ & Hlower & _).
    apply Hlower. reflexivity.
Defined.

(** * Further properties of the code *)

(** ** Computations, continued *)

Lemma bind_unfold {A B} (m : M A) (k : A -> M B) :
  bind m k =
  (trace m ++ match result m with Ret a => trace (k a) | Panic => [] end,
   match result m with Ret a => result (k a) | Panic => Panic end).
Proof.
  destruct m as [t [a|]].
  - by rewrite bind_run.
  - unfold bind. simpl. by rewrite app_nil_r.
Qed.

Lemma bind_assoc {A B C} (m : M A) (f : A -> M B) (g : B -> M C) :
  bind (bind m f) g = bind m (fun x => bind (f x) g).
Proof.
  destruct m as [t [a|]]; [|done].
  rewrite !bind_run. destruct (f a) as [t' [b|]]; simpl.
  - rewrite !bind_run. simpl. by rewrite app_assoc.
  - done.
Qed.

Lemma bind_ext {A B} (m : M A) (f g : A -> M B) :
  (forall x, f x = g x) -> bind m f = bind m g.
Proof. intros Hfg. destruct m as [t [a|]]; [|done]. by rewrite !bind_run, Hfg. Qed.

Lemma bind_ret_r {A} (m : M A) (f : A -> A) :
  (forall x, f x = x) -> bind m (fun x => ret (f x)) = m.
Proof.
  intros Hf. destruct m as [t [a|]]; [|done].
  rewrite bind_run, trace_ret, result_ret, Hf. by rewrite app_nil_r.
Qed.

(** ** The decoder and its reference *)

Section DecoderReference.
Context {E : events.pkg} {J : json.pkg}.

Lemma after_events_nil (x : option (list (option events.Event)) * option string) :
  after_events [] x = x.
Proof. by destruct x as [[out|] err]. Qed.

Lemma after_events_app (p q : list (option events.Event))
    (x : option (list (option events.Event)) * option string) :
  after_events p (after_events q x) = after_events (p ++ q) x.
Proof. destruct x as [[out|] err]; simpl; [by rewrite app_assoc | done]. Qed.

(** The loop over an array with room for the records left computes what
    the reference computes, after the events already stored. *)
Lemma ParseEvents_loop_decode (jlist : list (option string)) :
  forall (elist : list (option events.Event)) (i : nat),
    i + length jlist <= length elist ->
    message_events.ParseEvents_loop jlist elist i =
    bind (decode_records jlist) (fun x => ret (after_events (take i elist) x)).
Proof.
  induction jlist as [|[r|] jlist IH]; intros elist i Hlen.
  - simpl. rewrite bind_ret. simpl. by rewrite app_nil_r.
  - simpl in Hlen. rewrite ParseEvents_loop_cons.
    cbn [decode_records]. destruct (classify r) as [k|e|msg].
    + rewrite IH by lia. rewrite bind_assoc, bind_emit. reflexivity.
    + destruct (Nat.ltb_spec i (length elist)) as [Hi|]; [|lia].
      rewrite IH by (rewrite length_insert; lia).
      rewrite bind_assoc. apply bind_ext. intros x.
      rewrite bind_ret, after_events_app. do 2 f_equal.
      rewrite (take_S_r _ _ (Some e)) by by apply list_lookup_insert_eq.
      by rewrite take_insert_ge by lia.
    + by rewrite bind_ret.
  - reflexivity.
Qed.

Lemma ParseEvents_decode (jlist : list (option string)) :
  message_events.ParseEvents jlist = decode_records jlist.
Proof.
  unfold message_events.ParseEvents.
  rewrite ParseEvents_loop_decode by (rewrite length_replicate; lia).
  apply bind_ret_r. intros x. apply after_events_nil.
Qed.

End DecoderReference.

Section DecoderFacts.
Context {E : events.pkg} {J : json.pkg}.

Lemma unregistered_classify (r : string) :
  unregistered r = match classify r with Skipped _ => true | _ => false end.
Proof.
  unfold unregistered, classify. destruct (kind_tag r) as [k|]; [|done].
  destruct (events.EventForName k) as [e0|]; [|done].
  by destruct (json.Unmarshal_Event r e0) as [e [err|]].
Qed.

(** What a run of the reference that returns has returned. *)
Lemma decode_records_outcome (jlist : list (option string)) :
  forall log out err,
    decode_records jlist = (log, Ret (out, err)) ->
    match out with
    | Some o => err = None /\ Forall is_Some o /\ length o + length log = length jlist
    | None => is_Some err
    end.
Proof.
  induction jlist as [|[r|] jlist IH]; intros log out err Hrun.
  - injection Hrun as <- <- <-. by repeat split.
  - cbn [decode_records] in Hrun. destruct (classify r) as [k|e|msg].
    + rewrite bind_emit in Hrun. injection Hrun as <- Hres.
      specialize (IH (trace (decode_records jlist)) out err).
      rewrite <- Hres in IH. specialize (IH (run_eta _)).
      destruct out as [o|]; [|done].
      destruct IH as (-> & Ho & Hlen).
      split; [done | split; [done | simpl; lia]].
    + rewrite bind_unfold in Hrun.
      destruct (decode_records jlist) as [t [[out' err']|]] eqn:Hd;
        simpl in Hrun; [|discriminate].
      specialize (IH t out' err' eq_refl).
      rewrite app_nil_r in Hrun. injection Hrun as <- Hres.
      destruct out' as [o'|]; simpl in Hres; injection Hres as <- <-; [|done].
      destruct IH as (-> & Ho & Hlen).
      split; [done | split; [constructor; eauto | simpl; lia]].
    + injection Hrun as <- <- <-. by eexists.
  - discriminate.
Qed.

(** The reference writes to stderr and does nothing else. *)
Lemma decode_records_stderr (jlist : list (option string)) :
  Forall is_stderr (trace (decode_records jlist)).
Proof.
  induction jlist as [|[r|] jlist IH]; [constructor | | constructor].
  cbn [decode_records]. destruct (classify r) as [k|e|msg].
  - rewrite bind_emit. by constructor.
  - rewrite bind_unfold. simpl. apply Forall_app. split; [done |].
    destruct (result (decode_records jlist)); constructor.
  - constructor.
Qed.

(** Non-nil records never make the reference panic. *)
Lemma decode_records_returns (recs : list string) :
  exists r, result (decode_records (Some <$> recs)) = Ret r.
Proof.
  induction recs as [|r recs [x IH]]; [by eexists |].
  rewrite fmap_cons. cbn [decode_records]. destruct (classify r) as [k|e|msg].
  - rewrite bind_emit. by exists x.
  - rewrite bind_unfold, IH. by eexists.
  - by eexists.
Qed.

(** The reference on a list that starts with passing records. *)
Lemma decode_records_app (pre : list string) (rest : list (option string)) :
  forall evs : list events.Event,
    Forall passes pre ->
    Forall2 decoded (List.filter registered pre) evs ->
    decode_records ((Some <$> pre) ++ rest) =
    (unhandled_log pre ++ trace (decode_records rest),
     match result (decode_records rest) with
     | Ret x => Ret (after_events (Some <$> evs) x)
     | Panic => Panic
     end).
Proof.
  induction pre as [|r pre IH]; intros evs Hpass Hdec.
  - simpl in Hdec. apply Forall2_nil_inv_l in Hdec as ->. simpl.
    destruct (decode_records rest) as [t [x|]]; simpl; [|done].
    by rewrite after_events_nil.
  - apply Forall_cons in Hpass as [Hr Hpass].
    rewrite fmap_cons, <- app_comm_cons. cbn [decode_records].
    simpl in Hdec. destruct Hr as [Hun|[e He]].
    + destruct (classify_unregistered r Hun) as (k & Hk & He0 & ->).
      assert (registered r = false) as Hreg
        by (unfold registered; by rewrite Hk, He0).
      rewrite Hreg in Hdec. rewrite bind_emit, (IH evs Hpass Hdec).
      simpl. by rewrite Hk, He0.
    + rewrite (classify_decoded r e He).
      destruct (registered_decoded r e He) as [Hreg _].
      rewrite Hreg in Hdec.
      apply Forall2_cons_inv_l in Hdec as (e' & evs' & He' & Hdec & ->).
      assert (e' = e) as ->.
      { destruct He as (k & e0 & Hk & He0 & Hu).
        destruct He' as (k' & e0' & Hk' & He0' & Hu'). congruence. }
      rewrite bind_unfold, (IH evs' Hpass Hdec). simpl.
      destruct He as (k & e0 & Hk & He0 & _). rewrite Hk, He0.
      destruct (result (decode_records rest)) as [x|]; simpl.
      * rewrite app_nil_r. by rewrite after_events_app.
      * by rewrite app_nil_r.
Qed.

(** Records of unregistered kinds do not change what the reference
    returns. *)
Lemma decode_records_filter (recs : list string) :
  result (decode_records (Some <$> recs)) =
  result (decode_records
            (Some <$> List.filter (fun r => negb (unregistered r)) recs)).
Proof.
  induction recs as [|r recs IH]; [done |].
  rewrite fmap_cons. cbn [List.filter]. rewrite unregistered_classify.
  cbn [decode_records].
  destruct (classify r) as [k|e|msg] eqn:Hc; cbn [negb].
  - rewrite bind_emit. exact IH.
  - rewrite fmap_cons. cbn [decode_records]. rewrite Hc, !bind_unfold.
    cbn [result snd]. by rewrite IH.
  - rewrite fmap_cons. cbn [decode_records]. by rewrite Hc.
Qed.

(** X1.  On non-nil records [ParseEvents] always returns: the index [i]
    stays inside the array [elist], whatever the records hold. *)
Theorem ParseEvents_in_bounds (recs : list string) :
  exists log r, message_events.ParseEvents (Some <$> recs) = (log, Ret r).
Proof.
  rewrite ParseEvents_decode. destruct (decode_records_returns recs) as [r Hr].
  exists (trace (decode_records (Some <$> recs))), r.
  rewrite <- Hr. apply run_eta.
Qed.

(** X2.  A nil entry that the loop reaches, that is one after records
    that all pass, makes [ParseEvents] panic, after the lines for the
    skipped records were written. *)
Theorem ParseEvents_nil_entry_panics (pre : list string)
    (rest : list (option string)) :
  Forall passes pre ->
  message_events.ParseEvents ((Some <$> pre) ++ None :: rest) =
  (unhandled_log pre, Panic).
Proof.
  intros Hpass. destruct (passes_decoded pre Hpass) as [evs Hdec].
  rewrite ParseEvents_decode, (decode_records_app pre (None :: rest) evs Hpass Hdec).
  simpl. by rewrite app_nil_r.
Qed.

(** X3.  A run of [ParseEvents] that returns gives either a nil slice
    with an error or a slice with a nil error, never both and never
    neither; a returned slice has no nil entry, and its length plus the
    number of lines written to stderr is the length of the input: every
    record is returned as an event or reported as skipped. *)
Theorem ParseEvents_outcome (jlist : list (option string))
    (log : list effect) (out : option (list (option events.Event)))
    (err : option string) :
  message_events.ParseEvents jlist = (log, Ret (out, err)) ->
  match out with
  | Some o => err = None /\ Forall is_Some o /\ length o + length log = length jlist
  | None => is_Some err
  end.
Proof. rewrite ParseEvents_decode. apply decode_records_outcome. Qed.

(** X4.  [ParseEvents] on a list that starts with passing records [pre]
    writes the lines for [pre], then does what it does on the rest of
    the list, and puts the events of [pre] before the events of the
    rest; an error or a panic on the rest is the outcome of the whole. *)
Theorem ParseEvents_app (pre : list string) (rest : list (option string))
    (evs : list events.Event) :
  Forall passes pre ->
  Forall2 decoded (List.filter registered pre) evs ->
  trace (message_events.ParseEvents ((Some <$> pre) ++ rest)) =
    unhandled_log pre ++ trace (message_events.ParseEvents rest) /\
  result (message_events.ParseEvents ((Some <$> pre) ++ rest)) =
    match result (message_events.ParseEvents rest) with
    | Ret x => Ret (after_events (Some <$> evs) x)
    | Panic => Panic
    end.
Proof.
  intros Hpass Hdec.
  rewrite !ParseEvents_decode, (decode_records_app pre rest evs Hpass Hdec).
  by split.
Qed.

(** X5.  Taking the records of unregistered kinds out of the input
    changes the lines on stderr only: [ParseEvents] returns the same
    events, or the same error. *)
Theorem ParseEvents_ignores_unregistered (recs : list string) :
  result (message_events.ParseEvents (Some <$> recs)) =
  result (message_events.ParseEvents
            (Some <$> List.filter (fun r => negb (unregistered r)) recs)).
Proof. rewrite !ParseEvents_decode. apply decode_records_filter. Qed.

(** A faulty record after non-nil records ends the reference with an
    error, whatever follows it. *)
Lemma decode_records_fault (pre : list string) (r msg0 : string)
    (rest : list (option string)) :
  classify r = Faulty msg0 ->
  exists log msg,
    decode_records ((Some <$> pre) ++ Some r :: rest) = (log, Ret (None, Some msg)).
Proof.
  intros Hr. induction pre as [|p pre (log & msg & IH)].
  - simpl. rewrite Hr. by eexists _, _.
  - rewrite fmap_cons, <- app_comm_cons. cbn [decode_records].
    destruct (classify p) as [k|e|m].
    + rewrite bind_emit, IH. by eexists _, _.
    + rewrite bind_unfold, IH. by eexists _, _.
    + by eexists _, _.
Qed.

(** With a faulty record anywhere in the list, the reference returns no
    slice. *)
Lemma decode_records_no_slice (jlist : list (option string)) (r msg0 : string) :
  In (Some r) jlist -> classify r = Faulty msg0 ->
  forall log out err, decode_records jlist = (log, Ret (out, err)) -> out = None.
Proof.
  intros Hin Hr. induction jlist as [|[p|] jlist IH]; intros log out err Hrun.
  - destruct Hin.
  - cbn [decode_records] in Hrun.
    destruct (classify p) as [k|e|m] eqn:Hp.
    + rewrite bind_emit in Hrun. injection Hrun as _ Hres.
      destruct Hin as [[= ->]|Hin]; [congruence |].
      eapply (IH Hin (trace (decode_records jlist)) out err).
      rewrite <- Hres. apply run_eta.
    + destruct Hin as [[= ->]|Hin]; [congruence |].
      rewrite bind_unfold in Hrun.
      destruct (decode_records jlist) as [t [[out' err']|]] eqn:Hd;
        simpl in Hrun; [|discriminate].
      rewrite (IH Hin t out' err' eq_refl) in Hrun.
      by injection Hrun as _ <- _.
    + by injection Hrun as _ <- _.
  - discriminate.
Qed.

(** C2.  When a record [r] of the list holds no match of the
    discriminator pattern and no entry before it is nil, [ParseEvents]
    returns a nil slice and an error, whatever the records before it
    and the entries after it are; when every record before [r] passes,
    the error is the one of line 452 for [r].  And wherever such a record
    stands in a list, a run of [ParseEvents] that returns gives a nil
    slice and an error: no events are handed out. *)
Theorem ParseEvents_no_match_aborts (pre : list string) (r : string)
    (rest : list (option string)) :
  no_match r ->
  (exists log msg,
     message_events.ParseEvents ((Some <$> pre) ++ Some r :: rest) =
     (log, Ret (None, Some msg))) /\
  (Forall passes pre ->
   message_events.ParseEvents ((Some <$> pre) ++ Some r :: rest) =
   (unhandled_log pre, Ret (None, Some (message_events.no_type_error r)))) /\
  (forall jlist log out err,
     In (Some r) jlist ->
     message_events.ParseEvents jlist = (log, Ret (out, err)) ->
     out = None /\ is_Some err).
Proof.
  intros Hno. pose proof (classify_no_match r Hno) as Hr.
  split; [|split].
  - rewrite ParseEvents_decode. by apply (decode_records_fault pre r _ rest Hr).
  - intros Hpass. destruct (passes_decoded pre Hpass) as [evs Hdec].
    rewrite ParseEvents_decode,
      (decode_records_app pre (Some r :: rest) evs Hpass Hdec).
    cbn [decode_records]. rewrite Hr. simpl. by rewrite app_nil_r.
  - intros jlist log out err Hin Hrun. rewrite ParseEvents_decode in Hrun.
    pose proof (decode_records_no_slice jlist r _ Hin Hr log out err Hrun) as ->.
    split; [done |]. by apply (decode_records_outcome jlist log None err).
Qed.

End DecoderFacts.

(** ** The discriminator pattern, continued *)

Lemma append_assoc (s t u : string) : (s +:+ t) +:+ u = s +:+ t +:+ u.
Proof. induction s as [|c s IH]; [done | by rewrite !append_cons, IH]. Qed.

(** No match starts at a byte that is not a double quote. *)
Lemma find_skip (c : ascii) (s : string) :
  c <> dquote -> regexp.find (String c s) = regexp.find s.
Proof.
  intros Hc. cbn [regexp.find].
  assert (regexp.match_here (String c s) = None) as ->; [|done].
  unfold regexp.match_here, regexp.type_key. cbn [regexp.strip].
  destruct (Ascii.eqb_spec dquote c); [congruence | done].
Qed.

Lemma find_skip_every (p : ascii -> bool) (w s : string) :
  p dquote = false -> every p w = true ->
  regexp.find (w +:+ s) = regexp.find s.
Proof.
  intros Hp. induction w as [|c w IH]; intros Hw; [done |].
  simpl in Hw. apply andb_true_iff in Hw as [Hc Hw].
  rewrite append_cons, find_skip; [by apply IH | congruence].
Qed.

(** X6.  [typeMatch] answers nil or exactly two strings, so that the
    index 1 the decoder reads is in range; the second string, the
    kind-tag, is a non-empty word of letters, digits and underscores,
    and the first is a piece of the record. *)
Theorem typeMatch_answer (r : string) :
  message_events.typeMatch r = [] \/
  exists whole k pre post,
    message_events.typeMatch r = [whole; k] /\
    k <> EmptyString /\ every regexp.is_word k = true /\
    r = pre +:+ whole +:+ post.
Proof.
  unfold message_events.typeMatch.
  destruct (FindStringSubmatch_cases r) as [[Hnil _]|(whole & k & Hs & Hf)];
    [by left | right].
  apply find_Some in Hf as (pre & rest & -> & Hm & _).
  apply match_here_Some in Hm as (ws & post & -> & _ & Hne & Hw & ->).
  exists (matched_text ws k), k, pre, post. split; [done |].
  split; [done | split; [done |]]. f_equal. unfold matched_text.
  rewrite !append_assoc, !append_cons. do 2 f_equal.
  by rewrite append_assoc, append_cons.
Qed.

Lemma find_cons_None (c : ascii) (s : string) :
  regexp.match_here (String c s) = None ->
  regexp.find (String c s) = regexp.find s.
Proof.
  intros Hm.
  change (regexp.find (String c s))
    with (match regexp.match_here (String c s) with
          | Some r => Some r
          | None => regexp.find s
          end).
  by rewrite Hm.
Qed.

(** Strings built with [+:+] from known heads, as sequences of bytes. *)
Ltac norm_append := repeat first [rewrite append_cons | rewrite append_nil_l].

(** The cases of the byte comparisons that [strip] makes. *)
Ltac strip_cases :=
  repeat (match goal with
          | |- context [Ascii.eqb ?a ?b] =>
              destruct (Ascii.eqb_spec a b); [subst | done]
          end; cbn [regexp.strip]).

(** The match of the pattern that would start at the head of the
    string fails, for a reason [strip] finds. *)
Ltac no_match_here :=
  match goal with
  | |- context [regexp.find (String ?c ?s)] =>
      rewrite (find_cons_None c s);
      [ | unfold regexp.match_here, regexp.type_key;
          norm_append; cbn [regexp.strip]; strip_cases; try done ]
  end.

(** No match in the value of a field and what follows it. *)
Lemma find_value_only (kind : string) :
  every regexp.is_word kind = true ->
  regexp.find (":" +:+ sample.quoted kind +:+ "}") = None.
Proof.
  intros Hkind. unfold sample.quoted. norm_append.
  rewrite find_skip by discriminate.
  no_match_here.
  - rewrite append_assoc, (find_skip_every regexp.is_word) by done.
    reflexivity.
  - destruct kind as [|c1 [|c2 [|c3 [|c4 [|c5 kind]]]]];
      norm_append; cbn [regexp.strip]; strip_cases; done.
Qed.

(** X7.  The pattern allows white space after the colon and none before
    it: a record whose one field [type] is written with white space
    between the key and the colon yields no kind-tag, whatever its kind
    is. *)
Theorem typeMatch_space_before_colon (ws kind : string) :
  ws <> EmptyString ->
  every regexp.is_space ws = true ->
  every regexp.is_word kind = true ->
  message_events.typeMatch
    ("{" +:+ sample.quoted "type" +:+ ws +:+ ":" +:+ sample.quoted kind +:+ "}") = [].
Proof.
  intros Hne Hws Hkind.
  unfold message_events.typeMatch, regexp.FindStringSubmatch.
  assert (regexp.find
            ("{" +:+ sample.quoted "type" +:+ ws +:+ ":" +:+ sample.quoted kind +:+ "}")
          = None) as ->; [|done].
  pose proof (find_value_only kind Hkind) as Htail.
  set (tail := ":" +:+ sample.quoted kind +:+ "}") in *.
  destruct ws as [|c ws]; [done |].
  simpl in Hws. apply andb_true_iff in Hws as [Hc Hws].
  assert (c <> dquote) as Hcq by (intros ->; discriminate).
  assert (c <> ":"%char) as Hcc by (intros ->; discriminate).
  assert (c <> "t"%char) as Hct by (intros ->; discriminate).
  unfold sample.quoted. norm_append.
  rewrite find_skip by discriminate.
  no_match_here.
  do 4 (rewrite find_skip by discriminate).
  no_match_here.
  rewrite find_skip by done.
  by rewrite (find_skip_every regexp.is_space) by done.
Qed.

(** ** The handle, continued *)

(** X15.  A call of [ReadBody] that returns has read and closed the body
    of the response once, or has done nothing; afterwards the handle has
    a [Response], which keeps exactly the bytes that the call returned,
    and the same path, configuration and client as before. *)
Theorem ReadBody_keeps_what_it_returns (a a' : api.API)
    (res : option http.Response) (tr : list effect)
    (body err : option string) :
  api.ReadBody a res = (tr, Ret (a', (body, err))) ->
  (tr = [] \/ tr = [BodyRead; BodyClose]) /\
  api.Response_of a' <> None /\
  api.cached a' = body /\
  api.Path a' = api.Path a /\ api.Config_of a' = api.Config_of a /\
  api.Client a' = api.Client a.
Proof.
  unfold api.ReadBody. destruct (api.cached a) as [kept|] eqn:Hc.
  - intros [= <- <- <- <-]. split; [by left |].
    split; [|by repeat split].
    intros Hnil. unfold api.cached in Hc. by rewrite Hnil in Hc.
  - destruct res as [r|]; [|discriminate]. simpl. go_run.
    destruct (http.Body r) as [bodyBytes e]. go_run.
    intros [= <- <- <- <-]. split; [by right | done].
Qed.

(** X18.  [Init] keeps a client that the caller has set and then cannot
    fail; a call without an error leaves the handle with the given
    configuration and path and with a client; a call with an error has
    set the configuration and the path all the same, and no client. *)
Theorem Init_outcome (CACerts_err : option string) (pooled : http.Client)
    (a a' : api.API) (cfg : api.Config) (path : string) (err : option string) :
  api.Init CACerts_err pooled a cfg path = (a', err) ->
  api.Config_of a' = Some cfg /\ api.Path a' = path /\
  api.Response_of a' = api.Response_of a /\
  (forall own, api.Client a = Some own -> err = None /\ api.Client a' = Some own) /\
  (err = None -> api.Client a' <> None) /\
  (err <> None -> api.Client a' = None /\ err = CACerts_err).
Proof.
  unfold api.Init. simpl. destruct (api.Client a) as [own|] eqn:Hown; simpl.
  - intros [= <- <-]. simpl. repeat split; try done; intros; by simplify_eq.
  - destruct CACerts_err as [e|]; intros [= <- <-]; simpl;
      repeat split; try done; intros; by simplify_eq.
Qed.

Section RestOfApiFacts.
Context {U : url.pkg} {S : strconv.pkg} {R : response_json}.

(** [ParseResponse] on a handle that keeps a body. *)
Lemma ParseResponse_cached (a : api.API) (res : option http.Response)
    (kept : string) (target : api.Response) :
  api.cached a = Some kept -> api.Response_of a = Some target ->
  ParseResponse a res =
  ([], Ret (let '(d, err) := Unmarshal_Response kept target in
            match err with
            | Some e => (api.set_Response a (Some d), Some (parse_error e (Some kept)))
            | None => (api.set_Response a (Some (set_HTTP d res)), None)
            end)).
Proof.
  intros Hc Ht. unfold ParseResponse, api.ReadBody. rewrite Hc. go_run.
  rewrite Ht. simpl. rewrite Ht. simpl. go_run.
  by destruct (Unmarshal_Response kept target) as [d [e|]].
Qed.

(** X16.  On a handle that keeps a body, [ParseResponse] reads nothing:
    it decodes the kept body again and, when that succeeds, records its
    argument as the HTTP response of the handle, whatever response that
    is, nil included; the body of the argument plays no part. *)
Theorem ParseResponse_kept_body (a : api.API) (res : option http.Response)
    (kept : string) (target d : api.Response) :
  api.cached a = Some kept -> api.Response_of a = Some target ->
  Unmarshal_Response kept target = (d, None) ->
  ParseResponse a res = ([], Ret (api.set_Response a (Some (set_HTTP d res)), None)).
Proof.
  intros Hc Ht Hu. by rewrite (ParseResponse_cached a res kept target Hc Ht), Hu.
Qed.

(** X17.  When the body of a response breaks off with a read error after
    some bytes, [ParseResponse] returns the read error, and the handle
    keeps the bytes read so far; a later call, for any response, does
    not read and does not report the read error: it returns nil or the
    error of decoding the bytes that were kept. *)
Theorem ParseResponse_after_read_error (a : api.API) (r1 : http.Response)
    (part rerr : string) :
  api.cached a = None ->
  http.Body r1 = (Some part, Some rerr) ->
  exists a1,
    ParseResponse a (Some r1) = ([BodyRead; BodyClose], Ret (a1, Some rerr)) /\
    forall res2, exists a2 e2,
      ParseResponse a1 res2 = ([], Ret (a2, e2)) /\
      (e2 = None \/ exists uerr, e2 = Some (parse_error uerr (Some part))).
Proof.
  intros Hc Hb. exists (api.store_body a (Some part)). split.
  - unfold ParseResponse, api.ReadBody. rewrite Hc. simpl. go_run.
    rewrite Hb. by go_run.
  - intros res2.
    rewrite (ParseResponse_cached (api.store_body a (Some part)) res2 part
               (api.set_Body match api.Response_of a with
                             | Some rs => rs
                             | None => api.new_Response
                             end (Some part))) by done.
    destruct (Unmarshal_Response part _) as [d [e|]]; eexists _, _;
      (split; [reflexivity |]); [right; by eexists | by left].
Qed.

(** [strconv.Atoi] reads back what [%d] prints. *)
Lemma uint_head (d : Decimal.uint) :
  exists c r, NilZero.string_of_uint d = String c r /\
              c <> "-"%char /\ c <> "+"%char /\
              exists d', NilEmpty.uint_of_string (String c r) = Some d' /\
                         Z.of_uint d' = Z.of_uint d.
Proof.
  assert (forall d, exists d', NilEmpty.uint_of_string (NilZero.string_of_uint d) = Some d'
                               /\ Z.of_uint d' = Z.of_uint d) as Hparse.
  { intros d0. destruct d0; try (eexists; split; [apply NilEmpty.usu | done]).
    by exists (Decimal.D0 Decimal.Nil). }
  destruct (Hparse d) as (d' & Hd' & Hv).
  destruct d; simpl in *; eexists _, _;
    (split; [reflexivity |]); (split; [done |]); (split; [done |]);
    exists d'; by split.
Qed.

Lemma Atoi_itoa (v : Z) :
  strconv.fits_int v = true -> strconv.Atoi (gostrings.itoa v) = inl v.
Proof.
  intros Hfit. unfold gostrings.itoa.
  pose proof (DecimalZ.of_to v) as Hv.
  destruct (Z.to_int v) as [d|d]; simpl in Hv.
  - destruct (uint_head d) as (c & r & Hs & Hm & Hp & d' & Hd' & Hval).
    unfold NilZero.string_of_int. rewrite Hs. unfold strconv.Atoi.
    destruct (Ascii.eqb_spec c "-"); [done |].
    destruct (Ascii.eqb_spec c "+"); [done |].
    rewrite Hd'. change (Z.of_int (Decimal.Pos d)) with (Z.of_uint d) in Hv.
    by rewrite Hval, Hv, Hfit.
  - destruct (uint_head d) as (c & r & Hs & Hm & Hp & d' & Hd' & Hval).
    unfold NilZero.string_of_int. rewrite Hs. unfold strconv.Atoi.
    rewrite Ascii.eqb_refl, Hd'.
    change (Z.of_int (Decimal.Neg d)) with (- Z.of_uint d)%Z in Hv.
    by rewrite Hval, Hv, Hfit.
Qed.

(** X19.  [NewConfig] reads back a configuration from a map that holds
    its base URL and key under [baseurl] and [apikey] and its version,
    printed in decimal, under [apiver], whatever else the map holds,
    provided the version is a value of [int]. *)
Theorem NewConfig_round_trip (m : gmap string string) (c : api.Config) :
  m !! "baseurl" = Some (api.BaseUrl c) ->
  m !! "apikey" = Some (api.ApiKey c) ->
  m !! "apiver" = Some (gostrings.itoa (api.ApiVersion c)) ->
  strconv.fits_int (api.ApiVersion c) = true ->
  NewConfig m = (Some c, None).
Proof.
  intros Hb Hk Hv Hfit. unfold NewConfig.
  rewrite Hb, Hk, Hv, (Atoi_itoa _ Hfit). by destruct c.
Qed.

(** X20.  [NewConfig] returns a configuration or an error, never both
    and never neither.  A configuration it returns holds the values of
    the keys [baseurl] and [apikey], empty or not, and the number that
    [strconv.Atoi] reads in the value of [apiver], so a value of [int];
    and without one of the three keys it returns an error. *)
Theorem NewConfig_sound (m : gmap string string) (c : option api.Config)
    (err : option string) :
  NewConfig m = (c, err) ->
  match c with
  | Some c =>
      err = None /\
      m !! "baseurl" = Some (api.BaseUrl c) /\
      m !! "apikey" = Some (api.ApiKey c) /\
      (exists apiver, m !! "apiver" = Some apiver /\
                      strconv.Atoi apiver = inl (api.ApiVersion c)) /\
      strconv.fits_int (api.ApiVersion c) = true
  | None =>
      is_Some err /\
      (m !! "baseurl" = None -> err = Some "BaseUrl is required for api config")
  end.
Proof.
  unfold NewConfig. destruct (m !! "baseurl") as [b|].
  - destruct (m !! "apikey") as [k|]; [|intros [= <- <-]; split; [by eexists | done]].
    destruct (m !! "apiver") as [v|]; [|intros [= <- <-]; split; [by eexists | done]].
    destruct (strconv.Atoi v) as [n|e] eqn:Ha;
      [|intros [= <- <-]; split; [by eexists | done]].
    intros [= <- <-]. simpl. repeat split; try done; [by exists v |].
    unfold strconv.Atoi in Ha.
    destruct (match v with
              | String c r =>
                  if Ascii.eqb c "-" then (true, r)
                  else if Ascii.eqb c "+" then (false, r) else (false, v)
              | EmptyString => (false, v)
              end%char) as [neg ds].
    destruct ds; [done |].
    destruct (NilEmpty.uint_of_string _); [|done].
    destruct (strconv.fits_int _) eqn:Hfit; [|done].
    by injection Ha as <-.
  - intros [= <- <-]. split; [by eexists | done].
Qed.

(** The requests of [HttpGet] and [HttpDelete]. *)
Lemma HttpDelete_cases (a : api.API) (url : string) :
  trace (HttpDelete a url) = [] \/
  exists cfg u,
    api.Config_of a = Some cfg /\ url.Parse url = inl u /\
    trace (HttpDelete a url) =
    [HttpDo {| http.Method := "DELETE"; http.URL := url;
               http.ReqHeader := {[ "Authorization" := [api.ApiKey cfg] ]} |}].
Proof.
  unfold HttpDelete. destruct (url.Parse url) as [u|e] eqn:Hp; [|by left].
  destruct (api.Config_of a) as [cfg|]; [|by left]. simpl. go_run.
  destruct (api.Client a) as [do_|]; [|by left]. simpl. go_run.
  right. by exists cfg, u.
Qed.

Lemma HttpGet_cases (a : api.API) (url : string) :
  trace (api.HttpGet a url) = [] \/
  exists cfg u,
    api.Config_of a = Some cfg /\ url.Parse url = inl u /\
    trace (api.HttpGet a url) =
    [HttpDo {| http.Method := "GET"; http.URL := url;
               http.ReqHeader := {[ "Authorization" := [api.ApiKey cfg] ]} |}].
Proof.
  unfold api.HttpGet. destruct (url.Parse url) as [u|e] eqn:Hp; [|by left].
  destruct (api.Config_of a) as [cfg|]; [|by left]. simpl. go_run.
  destruct (api.Client a) as [do_|]; [|by left]. simpl. go_run.
  right. by exists cfg, u.
Qed.

(** X23.  [HttpGet] and [HttpDelete] send one request or none.  A
    request they send is for the URL given, which [url.Parse] accepts,
    has the method GET or DELETE, and carries one header, the API key of
    the configuration under [Authorization]; nothing is sent for a URL
    that [url.Parse] rejects. *)
Theorem Http_requests (a : api.API) (url : string) (req : http.Request) :
  (In (HttpDo req) (trace (api.HttpGet a url)) ->
   trace (api.HttpGet a url) = [HttpDo req] /\
   (exists u, url.Parse url = inl u) /\
   exists cfg, api.Config_of a = Some cfg /\
     req = {| http.Method := "GET"; http.URL := url;
              http.ReqHeader := {[ "Authorization" := [api.ApiKey cfg] ]} |}) /\
  (In (HttpDo req) (trace (HttpDelete a url)) ->
   trace (HttpDelete a url) = [HttpDo req] /\
   (exists u, url.Parse url = inl u) /\
   exists cfg, api.Config_of a = Some cfg /\
     req = {| http.Method := "DELETE"; http.URL := url;
              http.ReqHeader := {[ "Authorization" := [api.ApiKey cfg] ]} |}).
Proof.
  split; intros Hin.
  - destruct (HttpGet_cases a url) as [Ht|(cfg & u & Hcfg & Hu & Ht)];
      rewrite Ht in Hin |- *; [by destruct Hin |].
    destruct Hin as [[= <-]|[]]. split; [done |]. split; [by exists u |].
    by exists cfg.
  - destruct (HttpDelete_cases a url) as [Ht|(cfg & u & Hcfg & Hu & Ht)];
      rewrite Ht in Hin |- *; [by destruct Hin |].
    destruct Hin as [[= <-]|[]]. split; [done |]. split; [by exists u |].
    by exists cfg.
Qed.

End RestOfApiFacts.

(** ** The content type, continued *)

Lemma AssertJson_returns (res : option http.Response) :
  exists e, api.AssertJson res = ([], Ret e).
Proof.
  destruct res as [r|]; [|by eexists].
  unfold api.AssertJson. simpl. go_run. destruct (negb _); by eexists.
Qed.

(** X21.  The second revision of [AssertJson] accepts every response
    that the first revision accepts, and returns the error of the first
    revision for every response it rejects; it accepts more: a content
    type that starts with [application/json] and goes on, which the
    first revision rejects. *)
Theorem AssertJson_revisions :
  (forall res,
     api_rev1.AssertJson res = ([], Ret None) ->
     api.AssertJson res = ([], Ret None)) /\
  (forall res err,
     api.AssertJson res = ([], Ret (Some err)) ->
     api_rev1.AssertJson res = ([], Ret (Some err))) /\
  (forall res ctype tail,
     http.Header_Get (http.Header_of res) "Content-Type" = ctype ->
     ctype = api.jctype +:+ tail -> tail <> EmptyString ->
     api.AssertJson (Some res) = ([], Ret None) /\
     api_rev1.AssertJson (Some res) =
       ([], Ret (Some ("Expected json, got [" +:+ ctype +:+ "] with code "
                       +:+ gostrings.itoa (http.StatusCode res))))).
Proof.
  split; [|split].
  - intros [r|]; [|done]. unfold api_rev1.AssertJson, api.AssertJson. simpl.
    go_run. change "application/json" with api.jctype.
    destruct (gostrings.EqualFold _ api.jctype); [done | discriminate].
  - intros [r|] err; [|done]. unfold api_rev1.AssertJson, api.AssertJson. simpl.
    go_run. change "application/json" with api.jctype.
    destruct (gostrings.EqualFold _ api.jctype); [done |]. simpl.
    by destruct (gostrings.HasPrefix _ api.jctype).
  - intros res ctype tail Hct -> Hne.
    unfold api_rev1.AssertJson, api.AssertJson. simpl. go_run. rewrite Hct.
    change "application/json" with api.jctype.
    destruct tail as [|c tail]; [done |].
    assert (gostrings.HasPrefix (api.jctype +:+ String c tail) api.jctype = true)
      as -> by (vm_compute; reflexivity).
    assert (gostrings.EqualFold (api.jctype +:+ String c tail) api.jctype = false)
      as -> by (vm_compute; reflexivity).
    done.
Qed.

(** X22.  A response without the header [Content-Type], or with an empty
    list of values for it, is not JSON for [AssertJson]: the error
    quotes an empty content type and the status code. *)
Theorem AssertJson_missing_header (res : http.Response) :
  http.Header_of res !! "Content-Type" = None \/
  http.Header_of res !! "Content-Type" = Some [] ->
  api.AssertJson (Some res) =
  ([], Ret (Some ("Expected json, got [] with code "
                  +:+ gostrings.itoa (http.StatusCode res)))).
Proof.
  intros Hh. unfold api.AssertJson. simpl. go_run.
  assert (http.Header_Get (http.Header_of res) "Content-Type" = EmptyString) as ->
    by (unfold http.Header_Get; by destruct Hh as [-> | ->]).
  reflexivity.
Qed.

(** ** Requests, continued *)

Lemma trace_bind {A B} (m : M A) (k : A -> M B) :
  trace (bind m k) =
  trace m ++ match result m with Ret a => trace (k a) | Panic => [] end.
Proof. by rewrite bind_unfold. Qed.

Section RequestFacts.
Context {U : url.pkg} {E : events.pkg} {J : json.pkg}.

Lemma samples_url_trace (m : api.API) (types : option (list string)) :
  trace (message_events.samples_url m types) = [].
Proof.
  unfold message_events.samples_url. destruct types as [ts|].
  - destruct (message_events.validate ts); [done |].
    destruct (api.Config_of m) as [cfg|]; [|done]. simpl. go_run.
    by destruct (url.Parse _).
  - by destruct (api.Config_of m).
Qed.

(** What [HttpGet] does: it stops before the request, or sends it. *)
Lemma HttpGet_outcome (m : api.API) (url : string) :
  (exists e, api.HttpGet m url = ([], Ret (None, Some e))) \/
  api.HttpGet m url = ([], Panic) \/
  exists cfg do_,
    api.Config_of m = Some cfg /\
    api.HttpGet m url =
    ([HttpDo (get_request cfg url)], Ret (do_ (get_request cfg url))).
Proof.
  unfold api.HttpGet. destruct (url.Parse url) as [u|e]; [|left; by eexists].
  destruct (api.Config_of m) as [cfg|]; [|by right; left]. simpl. go_run.
  destruct (api.Client m) as [do_|]; [|by right; left]. simpl. go_run.
  right; right. by exists cfg, do_.
Qed.

Lemma ReadBody_trace (a : api.API) (res : option http.Response) :
  trace (api.ReadBody a res) = [] \/
  trace (api.ReadBody a res) = [BodyRead; BodyClose].
Proof.
  unfold api.ReadBody. destruct (api.cached a); [by left |].
  destruct res as [r|]; [|by left]. simpl. go_run.
  destruct (http.Body r). go_run. by right.
Qed.

Lemma ParseEvents_stderr (jlist : list (option string)) :
  Forall is_stderr (trace (message_events.ParseEvents jlist)).
Proof. rewrite ParseEvents_decode. apply decode_records_stderr. Qed.

(** X8.  A run of [Samples] sends one request at most, a GET with the
    API key under [Authorization]; it reads a body only after that
    request, at most once, and closes it; and it writes to stderr only
    after all that.  So its trace is empty, or the request, or the
    request with the read and the close, followed by lines on stderr. *)
Theorem Samples_trace_shape (m : api.API) (types : option (list string)) :
  exists head log,
    trace (message_events.Samples m types) = head ++ log /\
    Forall is_stderr log /\
    ((head = [] /\ log = []) \/
     exists cfg url,
       api.Config_of m = Some cfg /\
       (head = [HttpDo (get_request cfg url)] \/
        head = [HttpDo (get_request cfg url); BodyRead; BodyClose])).
Proof.
  unfold message_events.Samples.
  rewrite trace_bind, samples_url_trace. cbn [app].
  destruct (result (message_events.samples_url m types)) as [[url|e]|];
    [|by exists [], []; repeat split; auto..].
  destruct (HttpGet_outcome m url) as [[e Hg]|[Hg|(cfg & do_ & Hcfg & Hg)]];
    rewrite trace_bind, Hg; cbn [trace result fst snd app];
    [by exists [], []; repeat split; auto..|].
  destruct (do_ (get_request cfg url)) as [res [e|]].
  { exists [HttpDo (get_request cfg url)], []. rewrite trace_ret.
    split; [done | split; [constructor | right; eauto]]. }
  destruct (AssertJson_returns res) as [bad Hbad].
  rewrite trace_bind, Hbad. cbn [trace result fst snd app].
  destruct bad as [e|].
  { exists [HttpDo (get_request cfg url)], []. rewrite trace_ret.
    split; [done | split; [constructor | right; eauto]]. }
  rewrite trace_bind.
  pose proof (ReadBody_trace m res) as Htr.
  destruct (api.ReadBody m res) as [tR rR]. cbn [trace result fst snd] in *.
  assert (forall log, Forall is_stderr log ->
            exists head log',
              HttpDo (get_request cfg url) :: tR ++ log = head ++ log' /\
              Forall is_stderr log' /\
              ((head = [] /\ log' = []) \/
               exists cfg0 url0,
                 api.Config_of m = Some cfg0 /\
                 (head = [HttpDo (get_request cfg0 url0)] \/
                  head = [HttpDo (get_request cfg0 url0); BodyRead; BodyClose])))
    as Hhead.
  { intros log Hlog. destruct Htr as [-> | ->].
    - exists [HttpDo (get_request cfg url)], log.
      split; [done | split; [done | right; eauto]].
    - exists [HttpDo (get_request cfg url); BodyRead; BodyClose], log.
      split; [done | split; [done | right; eauto 6]]. }
  apply Hhead.
  destruct rR as [[m1 [bodyBytes [e|]]]|]; [constructor | | constructor].
  destruct (json.Unmarshal_resMap _) as [resMap [e|]]; [constructor |].
  destruct (resMap !! "results") as [results|]; [|constructor].
  rewrite trace_bind. apply Forall_app. split; [apply ParseEvents_stderr |].
  destruct (result _); constructor.
Qed.

(** X9.  A run of [Samples] that returns gives either a nil slice with an
    error or a slice of events with a nil error, never both and never
    neither; a returned slice has no nil entry. *)
Theorem Samples_outcome (m m' : api.API) (types : option (list string))
    (tr : list effect) (out : option (list (option events.Event)))
    (err : option string) :
  message_events.Samples m types = (tr, Ret (m', (out, err))) ->
  match out with
  | Some o => err = None /\ Forall is_Some o
  | None => is_Some err
  end.
Proof.
  intros Hrun. unfold message_events.Samples in Hrun.
  apply bind_Ret_inv in Hrun as (t1 & [url|e] & t2 & _ & Hrun & _);
    [|injection Hrun as _ _ <- <-; by eexists].
  apply bind_Ret_inv in Hrun as (t3 & [res [e|]] & t4 & _ & Hrun & _);
    [injection Hrun as _ _ <- <-; by eexists |].
  apply bind_Ret_inv in Hrun as (t5 & [e|] & t6 & _ & Hrun & _);
    [injection Hrun as _ _ <- <-; by eexists |].
  apply bind_Ret_inv in Hrun as (t7 & [m1 [bodyBytes [e|]]] & t8 & _ & Hrun & _);
    [injection Hrun as _ _ <- <-; by eexists |].
  destruct (json.Unmarshal_resMap (default EmptyString bodyBytes))
    as [resMap [e|]]; [injection Hrun as _ _ <- <-; by eexists |].
  destruct (resMap !! "results") as [results|];
    [|injection Hrun as _ _ <- <-; by eexists].
  apply bind_Ret_inv in Hrun as (t9 & [out9 err9] & t10 & Hpe & Hrun & _).
  injection Hrun as _ _ <- <-.
  rewrite ParseEvents_decode in Hpe.
  apply decode_records_outcome in Hpe.
  destruct out9 as [o|]; [|done]. by destruct Hpe as (-> & Ho & _).
Qed.

(** X11.  On a handle without a kept body, when the server answers with
    a response of a JSON content type whose body reads without an error
    and decodes into a map with the key [results], [Samples] is
    [ParseEvents] on the records under that key: it returns what
    [ParseEvents] returns, and its trace is the request, the read, the
    close and then the trace of [ParseEvents]. *)
Theorem Samples_decodes_results (m : api.API) (types : option (list string))
    (url : string) (tr : list effect) (res : http.Response)
    (body : option string) (resMap : gmap string (list (option string)))
    (results : list (option string)) :
  message_events.samples_url m types = ([], Ret (inl url)) ->
  api.HttpGet m url = (tr, Ret (Some res, None)) ->
  api.AssertJson (Some res) = ([], Ret None) ->
  api.cached m = None ->
  http.Body res = (body, None) ->
  json.Unmarshal_resMap (default EmptyString body) = (resMap, None) ->
  resMap !! "results" = Some results ->
  trace (message_events.Samples m types) =
    tr ++ [BodyRead; BodyClose] ++ trace (message_events.ParseEvents results) /\
  result (message_events.Samples m types) =
    match result (message_events.ParseEvents results) with
    | Ret r => Ret (message_events.caller_view m (api.store_body m body), r)
    | Panic => Panic
    end.
Proof.
  intros Hurl Hget Hjson Hc Hbody Hun Hres.
  unfold message_events.Samples.
  rewrite Hurl. go_run. rewrite Hget. go_run. rewrite Hjson. go_run.
  unfold api.ReadBody. rewrite Hc. simpl. go_run. rewrite Hbody. go_run.
  rewrite Hun, Hres. rewrite bind_unfold. cbn [trace result fst snd].
  destruct (result (message_events.ParseEvents results)) as [r|]; split;
    rewrite ?trace_ret, ?result_ret, ?app_nil_r; done.
Qed.

(** X12.  On a handle that keeps a body, [Samples] sends its request and
    checks the content type of the response, but reads no body: it
    decodes the kept body, whatever the response holds, and leaves the
    handle as it is. *)
Theorem Samples_uses_kept_body (m : api.API) (types : option (list string))
    (url : string) (tr : list effect) (res : http.Response) (kept : string)
    (resMap : gmap string (list (option string)))
    (results : list (option string)) :
  message_events.samples_url m types = ([], Ret (inl url)) ->
  api.HttpGet m url = (tr, Ret (Some res, None)) ->
  api.AssertJson (Some res) = ([], Ret None) ->
  api.cached m = Some kept ->
  json.Unmarshal_resMap kept = (resMap, None) ->
  resMap !! "results" = Some results ->
  trace (message_events.Samples m types) =
    tr ++ trace (message_events.ParseEvents results) /\
  result (message_events.Samples m types) =
    match result (message_events.ParseEvents results) with
    | Ret r => Ret (m, r)
    | Panic => Panic
    end.
Proof.
  intros Hurl Hget Hjson Hc Hun Hres.
  assert (message_events.caller_view m m = m) as Hview
    by (unfold message_events.caller_view; by destruct (api.Response_of m)).
  unfold message_events.Samples.
  rewrite Hurl. go_run. rewrite Hget. go_run. rewrite Hjson. go_run.
  unfold api.ReadBody. rewrite Hc. go_run. simpl.
  rewrite Hun, Hres, Hview. rewrite bind_unfold. cbn [trace result fst snd].
  destruct (result (message_events.ParseEvents results)) as [r|]; split;
    rewrite ?trace_ret, ?result_ret, ?app_nil_r; done.
Qed.

(** X13.  [Samples] hands on the errors of its collaborators unchanged,
    with a nil slice: the error of [url.Parse] for the base URL of a
    filtered request, before anything is sent; the error of the
    transport, with no body read; and the error of reading the body. *)
Theorem Samples_propagates (m : api.API) :
  (forall ts cfg e,
     message_events.validate ts = None -> api.Config_of m = Some cfg ->
     url.Parse (api.BaseUrl cfg +:+ api.Path m +:+ "/events/samples") = inr e ->
     message_events.Samples m (Some ts) = ([], Ret (m, (None, Some e)))) /\
  (forall types url tr res e,
     message_events.samples_url m types = ([], Ret (inl url)) ->
     api.HttpGet m url = (tr, Ret (res, Some e)) ->
     message_events.Samples m types = (tr, Ret (m, (None, Some e)))) /\
  (forall types url tr res body e,
     message_events.samples_url m types = ([], Ret (inl url)) ->
     api.HttpGet m url = (tr, Ret (Some res, None)) ->
     api.AssertJson (Some res) = ([], Ret None) ->
     api.cached m = None ->
     http.Body res = (body, Some e) ->
     message_events.Samples m types =
     (tr ++ [BodyRead; BodyClose],
      Ret (message_events.caller_view m (api.store_body m body), (None, Some e)))).
Proof.
  split; [|split].
  - intros ts cfg e Hv Hcfg Hp.
    unfold message_events.Samples, message_events.samples_url.
    rewrite Hv, Hcfg. simpl. go_run. rewrite Hp. by go_run.
  - intros types url tr res e Hurl Hget. unfold message_events.Samples.
    rewrite Hurl. go_run. rewrite Hget. go_run. by rewrite app_nil_r.
  - intros types url tr res body e Hurl Hget Hjson Hc Hbody.
    unfold message_events.Samples.
    rewrite Hurl. go_run. rewrite Hget. go_run. rewrite Hjson. go_run.
    unfold api.ReadBody. rewrite Hc. simpl. go_run. rewrite Hbody. by go_run.
Qed.

End RequestFacts.

Section HandleFacts.
Context {U : url.pkg} {E : events.pkg} {J : json.pkg}.

Lemma samples_path (b i : string) :
  b +:+ ("/api/v" +:+ i +:+ "/message-events") +:+ "/events/samples" =
  b +:+ "/api/v" +:+ i +:+ "/message-events/events/samples".
Proof. by rewrite !append_assoc. Qed.

(** X14.  Without a filter [Samples] requests the base URL followed by
    the path and [/events/samples] as it stands, with no query added.
    With a filter that is not nil and has no kind, it sets the parameter
    [events] all the same, to the empty string. *)
Theorem Samples_nil_and_empty_filter (m : api.API) (cfg : api.Config)
    (do_ : http.Client) (u u' : url.URL) :
  let base := api.BaseUrl cfg +:+ api.Path m +:+ "/events/samples" in
  let qv := url.Values_Set (url.Query u) "events" EmptyString in
  let target := url.URL_String (url.set_RawQuery u (url.Encode qv)) in
  api.Config_of m = Some cfg -> api.Client m = Some do_ ->
  url.Parse base = inl u ->
  url.Parse target = inl u' ->
  (exists rest,
     trace (message_events.Samples m None) = HttpDo (get_request cfg base) :: rest) /\
  qv !! "events" = Some [EmptyString] /\
  (exists rest,
     trace (message_events.Samples m (Some [])) =
     HttpDo (get_request cfg target) :: rest).
Proof.
  intros base qv target Hcfg Hcl Hu Hu'. split; [|split].
  - eexists. unfold message_events.Samples, message_events.samples_url.
    rewrite Hcfg. simpl. go_run. fold base.
    rewrite (HttpGet_sends m cfg do_ base u Hcfg Hcl Hu). go_run. reflexivity.
  - apply lookup_insert_eq.
  - eexists. unfold message_events.Samples, message_events.samples_url.
    cbn [message_events.validate]. rewrite Hcfg. simpl. go_run. fold base.
    rewrite Hu. go_run. fold qv. fold target.
    rewrite (HttpGet_sends m cfg do_ target u' Hcfg Hcl Hu'). go_run. reflexivity.
Qed.

(** X24.  [New] fails exactly when the certificate pool cannot be loaded,
    with the error of the pool.  Otherwise its handle has the
    configuration given, the path [/api/v<version>/message-events], the
    client built on the pool and no [Response]; and [Samples] without a
    filter first sends, through that client, a GET for the base URL
    followed by [/api/v<version>/message-events/events/samples] with the
    API key. *)
Theorem New_handle (CACerts_err : option string) (pooled : http.Client)
    (cfg : api.Config) :
  let target := api.BaseUrl cfg +:+ "/api/v" +:+ gostrings.itoa (api.ApiVersion cfg)
                  +:+ "/message-events/events/samples" in
  match CACerts_err with
  | Some e => message_events.New CACerts_err pooled cfg = (None, Some e)
  | None =>
      exists m,
        message_events.New CACerts_err pooled cfg = (Some m, None) /\
        api.Path m = "/api/v" +:+ gostrings.itoa (api.ApiVersion cfg)
                       +:+ "/message-events" /\
        api.Config_of m = Some cfg /\ api.Client m = Some pooled /\
        api.Response_of m = None /\
        forall u, url.Parse target = inl u ->
          exists rest,
            trace (message_events.Samples m None) =
            HttpDo (get_request cfg target) :: rest
  end.
Proof.
  intros target. destruct CACerts_err as [e|]; [reflexivity |].
  eexists. split; [reflexivity |]. repeat split.
  intros u Hu. eexists.
  unfold message_events.Samples, message_events.samples_url. simpl. go_run.
  rewrite samples_path. fold target.
  erewrite (HttpGet_sends _ cfg pooled target u); [| done | done | done].
  go_run. reflexivity.
Qed.

End HandleFacts.

(** ** The further properties at work on the sample instance *)

Lemma ParseEvents_nil_entry_panics_witness :
  Forall (@passes sample.ev sample.js) [sample.record_of "click"] /\
  @message_events.ParseEvents sample.ev sample.js
    ((Some <$> [sample.record_of "click"]) ++ None :: [Some (sample.record_of "bounce")]) =
  ([Stderr ("unhandled event type [click]" +:+ String newline EmptyString)], Panic).
Proof.
  assert (Forall (@passes sample.ev sample.js) [sample.record_of "click"]) as Hpass
    by (constructor; [left; reflexivity | constructor]).
  split; [exact Hpass |].
  exact (@ParseEvents_nil_entry_panics sample.ev sample.js
           [sample.record_of "click"] [Some (sample.record_of "bounce")] Hpass).
Defined.

Lemma ParseEvents_outcome_witness :
  @message_events.ParseEvents sample.ev sample.js
    [Some (sample.record_of "delivery"); Some (sample.record_of "click");
     Some (sample.record_of "bounce")] =
  ([Stderr ("unhandled event type [click]" +:+ String newline EmptyString)],
   Ret (Some [Some (sample.Delivery (sample.record_of "delivery"));
              Some (sample.Bounce (sample.record_of "bounce"))], None)) /\
  2 + 1 = 3.
Proof.
  assert (@message_events.ParseEvents sample.ev sample.js
            [Some (sample.record_of "delivery"); Some (sample.record_of "click");
             Some (sample.record_of "bounce")] =
          ([Stderr ("unhandled event type [click]" +:+ String newline EmptyString)],
           Ret (Some [Some (sample.Delivery (sample.record_of "delivery"));
                      Some (sample.Bounce (sample.record_of "bounce"))], None)))
    as Hrun by reflexivity.
  split; [exact Hrun |].
  exact (proj2 (proj2 (@ParseEvents_outcome sample.ev sample.js _ _ _ _ Hrun))).
Defined.

Lemma ParseEvents_app_witness :
  let pre := [sample.record_of "click"; sample.record_of "delivery"] in
  let rest := [Some (sample.record_of "bounce")] in
  Forall (@passes sample.ev sample.js) pre /\
  result (@message_events.ParseEvents sample.ev sample.js ((Some <$> pre) ++ rest)) =
  Ret (Some [Some (sample.Delivery (sample.record_of "delivery"));
             Some (sample.Bounce (sample.record_of "bounce"))], None).
Proof.
  intros pre rest.
  assert (Forall (@passes sample.ev sample.js) pre) as Hpass.
  { constructor; [left; reflexivity |].
    constructor; [|constructor]. right. eexists. eexists _, _.
    repeat split; vm_compute; reflexivity. }
  assert (Forall2 (@decoded sample.ev sample.js)
            (List.filter (@registered sample.ev) pre)
            [sample.Delivery (sample.record_of "delivery")]) as Hdec.
  { constructor; [|constructor]. eexists _, _.
    repeat split; vm_compute; reflexivity. }
  split; [exact Hpass |].
  exact (proj2 (@ParseEvents_app sample.ev sample.js pre rest _ Hpass Hdec)).
Defined.

Lemma typeMatch_space_before_colon_witness :
  message_events.typeMatch
    ("{" +:+ sample.quoted "type" +:+ " " +:+ ":" +:+ sample.quoted "delivery" +:+ "}")
  = [].
Proof.
  apply (typeMatch_space_before_colon " " "delivery"); [discriminate | reflexivity..].
Defined.

Lemma ReadBody_keeps_what_it_returns_witness :
  let a := sample.handle sample_api.broken in
  api.ReadBody a (Some sample_api.broken) =
    ([BodyRead; BodyClose],
     Ret (api.store_body a (Some "{"), (Some "{", Some "unexpected EOF"))) /\
  api.cached (api.store_body a (Some "{")) = Some "{".
Proof.
  intros a.
  assert (api.ReadBody a (Some sample_api.broken) =
          ([BodyRead; BodyClose],
           Ret (api.store_body a (Some "{"), (Some "{", Some "unexpected EOF"))))
    as Hrun by reflexivity.
  split; [exact Hrun |].
  destruct (ReadBody_keeps_what_it_returns _ _ _ _ _ _ Hrun) as (_ & _ & Hc & _).
  exact Hc.
Defined.

Lemma Init_outcome_witness :
  let own := sample.server sample_api.broken in
  let a := {| api.Path := EmptyString; api.Config_of := None;
              api.Client := Some own; api.Response_of := None |} in
  exists a',
    api.Init (Some "no certificates") own a sample.cfg "/api/v1/message-events"
    = (a', None) /\
    api.Config_of a' = Some sample.cfg /\ api.Client a' = Some own.
Proof.
  intros own a. eexists.
  assert (api.Init (Some "no certificates") own a sample.cfg "/api/v1/message-events"
          = (_, None)) as Hrun by reflexivity.
  split; [exact Hrun |].
  destruct (Init_outcome _ _ _ _ _ _ _ Hrun) as (Hcfg & _ & _ & Hown & _).
  split; [exact Hcfg |]. exact (proj2 (Hown own eq_refl)).
Defined.

Lemma ParseResponse_kept_body_witness :
  let res := sample.answer "application/json" 200 "not even JSON" in
  let a := sample.used_handle res "{}" in
  exists a',
    @ParseResponse sample_api.rj a None = ([], Ret (a', None)) /\
    api.cached a' = Some "{}".
Proof.
  intros res a. eexists. split.
  - eapply (@ParseResponse_kept_body sample_api.rj a None "{}"); reflexivity.
  - reflexivity.
Defined.

Lemma ParseResponse_after_read_error_witness :
  let a := sample.handle sample_api.broken in
  exists a1,
    @ParseResponse sample_api.rj a (Some sample_api.broken) =
      ([BodyRead; BodyClose], Ret (a1, Some "unexpected EOF")) /\
    exists a2 e2,
      @ParseResponse sample_api.rj a1
        (Some (sample.answer "application/json" 200 "{}")) = ([], Ret (a2, e2)).
Proof.
  intros a.
  destruct (@ParseResponse_after_read_error sample_api.rj a sample_api.broken
              "{" "unexpected EOF" eq_refl eq_refl) as (a1 & Hfirst & Hlater).
  exists a1. split; [exact Hfirst |].
  destruct (Hlater (Some (sample.answer "application/json" 200 "{}")))
    as (a2 & e2 & Hrun & _).
  by exists a2, e2.
Defined.

Lemma NewConfig_round_trip_witness :
  @NewConfig sample_api.sc sample_api.settings = (Some sample.cfg, None).
Proof.
  apply (@NewConfig_round_trip sample_api.sc sample_api.settings sample.cfg);
    reflexivity.
Defined.

Lemma NewConfig_sound_witness :
  @NewConfig sample_api.sc sample_api.settings = (Some sample.cfg, None) /\
  sample_api.settings !! "baseurl" = Some "https://api.example.com" /\
  @strconv.fits_int sample_api.sc 1 = true.
Proof.
  assert (@NewConfig sample_api.sc sample_api.settings = (Some sample.cfg, None))
    as Hrun by reflexivity.
  split; [exact Hrun |].
  destruct (@NewConfig_sound sample_api.sc _ _ _ Hrun) as (_ & Hb & _ & _ & Hfit).
  split; [exact Hb | exact Hfit].
Defined.

Lemma Http_requests_witness :
  let a := sample.handle sample_api.broken in
  let req := {| http.Method := "DELETE"; http.URL := "https://api.example.com/x";
                http.ReqHeader := {[ "Authorization" := ["key"] ]} |} in
  trace (@HttpDelete sample.ur a "https://api.example.com/x") = [HttpDo req].
Proof.
  intros a req.
  destruct (@Http_requests sample.ur a "https://api.example.com/x" req) as [_ Hdel].
  apply Hdel. left. reflexivity.
Defined.

Lemma AssertJson_revisions_witness :
  let res := sample.answer "application/json; charset=utf-8" 200 "{}" in
  api.AssertJson (Some res) = ([], Ret None) /\
  api_rev1.AssertJson (Some res) =
    ([], Ret (Some "Expected json, got [application/json; charset=utf-8] with code 200")).
Proof.
  intros res.
  destruct AssertJson_revisions as (_ & _ & Hmore).
  apply (Hmore res "application/json; charset=utf-8" "; charset=utf-8");
    [reflexivity | reflexivity | discriminate].
Defined.

Lemma AssertJson_missing_header_witness :
  let res := {| http.Header_of := ∅; http.StatusCode := 204;
                http.Body := (Some EmptyString, None) |} in
  api.AssertJson (Some res) =
  ([], Ret (Some "Expected json, got [] with code 204")).
Proof.
  intros res. apply (AssertJson_missing_header res). left. reflexivity.
Defined.

Lemma Samples_outcome_witness :
  let m := sample.handle (sample.answer "application/json" 200 sample.body_three) in
  exists tr m' o,
    @message_events.Samples sample.ur sample.ev sample.js m None =
      (tr, Ret (m', (Some o, None))) /\
    Forall is_Some o.
Proof.
  intros m. eexists _, _, _.
  assert (@message_events.Samples sample.ur sample.ev sample.js m None =
          (_, Ret (_, (Some _, None)))) as Hrun by reflexivity.
  split; [exact Hrun |].
  exact (proj2 (@Samples_outcome sample.ur sample.ev sample.js _ _ _ _ _ _ Hrun)).
Defined.

Lemma Samples_keeps_fresh_witness :
  let m := sample.handle (sample.answer "application/json" 200 sample.body_three) in
  exists tr m' r,
    @message_events.Samples sample.ur sample.ev sample.js m None = (tr, Ret (m', r)) /\
    m' = m.
Proof.
  intros m. eexists _, _, _.
  assert (@message_events.Samples sample.ur sample.ev sample.js m None =
          (_, Ret (_, _))) as Hrun by reflexivity.
  split; [exact Hrun |].
  exact (@Samples_keeps_fresh sample.ur sample.ev sample.js m _ None _ _ eq_refl Hrun).
Defined.

Lemma Samples_decodes_results_witness :
  let res := sample.answer "application/json" 200 sample.body_three in
  let m := sample.handle res in
  result (@message_events.Samples sample.ur sample.ev sample.js m None) =
  Ret (m, (Some [Some (sample.Delivery (sample.record_of "delivery"));
                 Some (sample.Bounce (sample.record_of "bounce"))], None)).
Proof.
  intros res m.
  destruct (@Samples_decodes_results sample.ur sample.ev sample.js m None
              sample_api.samples_at
              [HttpDo (get_request sample.cfg sample_api.samples_at)]
              res (Some sample.body_three)
              {[ "results" := [Some (sample.record_of "delivery");
                               Some (sample.record_of "click");
                               Some (sample.record_of "bounce")] ]}
              [Some (sample.record_of "delivery"); Some (sample.record_of "click");
               Some (sample.record_of "bounce")]
              eq_refl eq_refl eq_refl eq_refl eq_refl eq_refl eq_refl)
    as [_ Hres].
  exact Hres.
Defined.

Lemma Samples_uses_kept_body_witness :
  let res := sample.answer "application/json" 200 "{}" in
  let m := sample.used_handle res sample.body_three in
  result (@message_events.Samples sample.ur sample.ev sample.js m None) =
  Ret (m, (Some [Some (sample.Delivery (sample.record_of "delivery"));
                 Some (sample.Bounce (sample.record_of "bounce"))], None)).
Proof.
  intros res m.
  destruct (@Samples_uses_kept_body sample.ur sample.ev sample.js m None
              sample_api.samples_at
              [HttpDo (get_request sample.cfg sample_api.samples_at)]
              res sample.body_three
              {[ "results" := [Some (sample.record_of "delivery");
                               Some (sample.record_of "click");
                               Some (sample.record_of "bounce")] ]}
              [Some (sample.record_of "delivery"); Some (sample.record_of "click");
               Some (sample.record_of "bounce")]
              eq_refl eq_refl eq_refl eq_refl eq_refl eq_refl)
    as [_ Hres].
  exact Hres.
Defined.

Lemma Samples_propagates_witness :
  @message_events.Samples sample.ur sample.ev sample.js sample_api.offline None =
    ([HttpDo (get_request sample.cfg sample_api.samples_at)],
     Ret (sample_api.offline, (None, Some "connection refused"))) /\
  exists m',
    @message_events.Samples sample.ur sample.ev sample.js
      (sample.handle sample_api.broken) None =
    ([HttpDo (get_request sample.cfg sample_api.samples_at); BodyRead; BodyClose],
     Ret (m', (None, Some "unexpected EOF"))).
Proof.
  destruct (@Samples_propagates sample.ur sample.ev sample.js sample_api.offline)
    as (_ & Htransport & _).
  destruct (@Samples_propagates sample.ur sample.ev sample.js
              (sample.handle sample_api.broken)) as (_ & _ & Hread).
  split.
  - apply (Htransport None sample_api.samples_at _ None); reflexivity.
  - eexists.
    apply (Hread None sample_api.samples_at
             [HttpDo (get_request sample.cfg sample_api.samples_at)]
             sample_api.broken (Some "{")); reflexivity.
Defined.

Lemma Samples_nil_and_empty_filter_witness :
  let m := sample.handle (sample.answer "application/json" 200 "{}") in
  (exists rest,
     trace (@message_events.Samples sample.ur sample.ev sample.js m None) =
     HttpDo (get_request sample.cfg sample_api.samples_at) :: rest) /\
  (exists rest,
     trace (@message_events.Samples sample.ur sample.ev sample.js m (Some [])) =
     HttpDo (get_request sample.cfg (sample_api.samples_at +:+ "?events=")) :: rest).
Proof.
  intros m.
  destruct (@Samples_nil_and_empty_filter sample.ur sample.ev sample.js m sample.cfg
              (sample.server (sample.answer "application/json" 200 "{}"))
              (sample_api.samples_at, EmptyString)
              (sample_api.samples_at +:+ "?events=", EmptyString)
              eq_refl eq_refl eq_refl eq_refl)
    as (Hnil & _ & Hempty).
  split; [exact Hnil | exact Hempty].
Defined.

Lemma New_handle_witness :
  let pooled := sample.server (sample.answer "application/json" 200 "{}") in
  exists m,
    message_events.New None pooled sample.cfg = (Some m, None) /\
    exists rest,
      trace (@message_events.Samples sample.ur sample.ev sample.js m None) =
      HttpDo (get_request sample.cfg sample_api.samples_at) :: rest.
Proof.
  intros pooled.
  destruct (@New_handle sample.ur sample.ev sample.js None pooled sample.cfg)
    as (m & Hnew & _ & _ & _ & _ & Hsend).
  exists m. split; [exact Hnew |].
  exact (Hsend (sample_api.samples_at, EmptyString) eq_refl).
Defined.

(** ** The corrected statements on the sample instance *)

(** A record whose kind-tag holds a hyphen, after a record that decodes
    and before a nil entry. *)
Lemma ParseEvents_no_match_aborts_witness :
  no_match (sample.record_of "foo-bar") /\
  @message_events.ParseEvents sample.ev sample.js
    ((Some <$> [sample.record_of "delivery"])
       ++ Some (sample.record_of "foo-bar") :: [None]) =
    ([], Ret (None, Some (message_events.no_type_error (sample.record_of "foo-bar")))).
Proof.
  assert (no_match (sample.record_of "foo-bar")) as Hno
    by (apply kind_tag_None; reflexivity).
  split; [exact Hno |].
  destruct (@ParseEvents_no_match_aborts sample.ev sample.js
              [sample.record_of "delivery"] (sample.record_of "foo-bar") [None] Hno)
    as (_ & Hfirst & _).
  apply Hfirst. constructor; [|constructor]. right. eexists. eexists _, _.
  split; [reflexivity | split; reflexivity].
Defined.

(** C2 as stated, for every list of entries, fails: with
    a nil entry before the record that has no match, [ParseEvents]
    panics at the nil entry and returns no error. *)
Lemma ParseEvents_no_match_counterexample :
  let jlist := [None; Some (sample.record_of "foo-bar")] in
  no_match (sample.record_of "foo-bar") /\
  @message_events.ParseEvents sample.ev sample.js jlist = ([], Panic) /\
  ~ (exists log msg,
       @message_events.ParseEvents sample.ev sample.js jlist =
       (log, Ret (None, Some msg))).
Proof.
  intros jlist. split; [apply kind_tag_None; reflexivity |].
  split; [reflexivity |].
  intros (log & msg & Hrun). discriminate Hrun.
Qed.

(** C5 as stated, for every handle, fails: the response
    has a JSON content type and the body [{}], which decodes into a map
    without the key [results], and yet [Samples] on a handle that keeps
    an earlier body returns the two events of that body and a nil
    error. *)
Lemma Samples_no_results_counterexample :
  let res := sample.answer "application/json" 200 "{}" in
  let m := sample.used_handle res sample.body_three in
  http.Body res = (Some "{}", None) /\
  @json.Unmarshal_resMap sample.ev sample.js "{}" = (∅, None) /\
  (∅ : gmap string (list (option string))) !! "results" = None /\
  @message_events.samples_url sample.ur sample.ev m None =
    ([], Ret (inl sample_api.samples_at)) /\
  @api.HttpGet sample.ur m sample_api.samples_at =
    ([HttpDo (get_request sample.cfg sample_api.samples_at)], Ret (Some res, None)) /\
  api.AssertJson (Some res) = ([], Ret None) /\
  result (@message_events.Samples sample.ur sample.ev sample.js m None) =
    Ret (m, (Some [Some (sample.Delivery (sample.record_of "delivery"));
                   Some (sample.Bounce (sample.record_of "bounce"))], None)) /\
  ~ (exists tr m' e,
       @message_events.Samples sample.ur sample.ev sample.js m None =
       (tr, Ret (m', (None, Some e)))).
Proof.
  intros res m. repeat (split; [reflexivity |]).
  intros (tr & m' & e & Hrun).
  assert (result (@message_events.Samples sample.ur sample.ev sample.js m None) =
          Ret (m', (None, Some e))) as Hres by (by rewrite Hrun).
  discriminate Hres.
Qed.
